(** * gmailctl rule parser: [internal/engine/parser/parser.go]

    A shallow embedding of [Parse], [parseRule], [parseCriteria],
    [checkSyntax], [parseOperation], [parseFunction] and
    [allChildrenLeaves], together with the properties of the rule compiler
    and of its rewrite expansion.

    Go values are embedded as follows.
    - a slice is a [list]; a Go [string] is a [string];
    - a function returning [(T, error)] whose callers drop the value on
      error returns a [result T];
    - code that can raise a Go runtime panic (an index out of range, a
      failed single-value type assertion) lives in [outcome], which keeps
      the panic apart from a returned [error];
    - the interface [CriteriaAST] with its two implementations [*Node] and
      [*Leaf] is an inductive type with two constructors, a type assertion
      is a [match];
    - the [fmt.Println] traces of [Parse] write to the standard output and
      are left out. *)

From Stdlib Require Import String DecimalString Bool Arith Lia List.
Import ListNotations.

Set Warnings "-register-all".

Open Scope string_scope.
Open Scope list_scope.
Open Scope nat_scope.

(** ** Errors, results and panics *)

(** Go [error] values as the parser builds them. *)
Inductive error : Type :=
| New (text : string)                        (* errors.New(text), fmt.Errorf without %w *)
| Wrap (prefix : string) (cause : error)     (* fmt.Errorf(prefix + "%w", cause) *)
| WithDetails (err : error) (details : string). (* errors.WithDetails(err, details) *)

(** The [Error()] text of an error. *)
Fixpoint Error (e : error) : string :=
  match e with
  | New text => text
  | Wrap prefix cause => (prefix ++ Error cause)%string
  | WithDetails err _ => Error err
  end.

(** The value half and the error half of a Go [(T, error)]. *)
Inductive result (A : Type) : Type :=
| Ok (a : A)
| Err (e : error).
Arguments Ok {A} a.
Arguments Err {A} e.

(** Go runtime panics the parser can raise. *)
Inductive panic : Type :=
| IndexOutOfRange        (* s[i] with i >= len(s) *)
| SliceBoundsOutOfRange  (* s[lo:] with lo > len(s) *)
| InterfaceConversion.   (* x.(T) in single-value form on another dynamic type *)

Inductive outcome (A : Type) : Type :=
| Returned (a : A)
| Panicked (p : panic).
Arguments Returned {A} a.
Arguments Panicked {A} p.

Definition bind {A B : Type} (m : outcome A) (k : A -> outcome B) : outcome B :=
  match m with
  | Returned a => k a
  | Panicked p => Panicked p
  end.

Notation "x <- m ;; k" := (bind m (fun x => k))
  (at level 61, m at next level, right associativity).

(** [s[i]] *)
Definition index {A : Type} (s : list A) (i : nat) : outcome A :=
  match nth_error s i with
  | Some x => Returned x
  | None => Panicked IndexOutOfRange
  end.

(** [s[lo:]] *)
Definition sliceFrom {A : Type} (s : list A) (lo : nat) : outcome (list A) :=
  if lo <=? length s then Returned (skipn lo s) else Panicked SliceBoundsOutOfRange.

(** [%d] of a loop index. *)
Definition decimal (n : nat) : string := NilEmpty.string_of_uint (Nat.to_uint n).

(** ** Criteria tree model *)

Inductive OperationType : Type :=
| OperationNone
| OperationAnd
| OperationOr
| OperationNot.

Inductive FunctionType : Type :=
| FunctionNone
| FunctionFrom
| FunctionTo
| FunctionCc
| FunctionBcc
| FunctionReplyTo
| FunctionSubject
| FunctionList
| FunctionHas
| FunctionQuery.

Definition OperationType_eqb (a b : OperationType) : bool :=
  match a, b with
  | OperationNone, OperationNone
  | OperationAnd, OperationAnd
  | OperationOr, OperationOr
  | OperationNot, OperationNot => true
  | _, _ => false
  end.

Definition FunctionType_eqb (a b : FunctionType) : bool :=
  match a, b with
  | FunctionNone, FunctionNone
  | FunctionFrom, FunctionFrom
  | FunctionTo, FunctionTo
  | FunctionCc, FunctionCc
  | FunctionBcc, FunctionBcc
  | FunctionReplyTo, FunctionReplyTo
  | FunctionSubject, FunctionSubject
  | FunctionList, FunctionList
  | FunctionHas, FunctionHas
  | FunctionQuery, FunctionQuery => true
  | _, _ => false
  end.

(** Modelled from the spec: the declarations of [CriteriaAST], [Node] and
    [Leaf] are not in parser.go. The fields are the ones its composite
    literals name ([Operation], [Children]; [Function], [Grouping], [Args],
    [IsRaw]) and section 3 of the specification lists. *)
Inductive CriteriaAST : Type :=
| Node (Operation : OperationType) (Children : list CriteriaAST)
| Leaf (Function : FunctionType) (Grouping : OperationType)
       (Args : list string) (IsRaw : bool).

(** Modelled from the spec: [RootOperation] is declared outside parser.go.
    On a Node it is the Node's operation. On a Leaf it is the leaf's
    [Grouping]: [Parse] tests [RootOperation() == OperationOr] on a value
    it has just asserted to be a [*Leaf], and section 4.4 reads that test
    as the leaf's Grouping marking a disjunction over its Args. A leaf made
    by [parseCriteria] has Grouping [OperationNone], for which this is the
    [None] of section 4.1. *)
Definition RootOperation (tree : CriteriaAST) : OperationType :=
  match tree with
  | Node op _ => op
  | Leaf _ grouping _ _ => grouping
  end.

(** Modelled from the spec: [IsLeaf] is declared outside parser.go; true
    iff the tree is a Leaf. *)
Definition IsLeaf (tree : CriteriaAST) : bool :=
  match tree with
  | Node _ _ => false
  | Leaf _ _ _ _ => true
  end.

(** Modelled from the spec: [Clone] is declared outside parser.go; a deep
    structural copy, rebuilt constructor by constructor. *)
Fixpoint Clone (tree : CriteriaAST) : CriteriaAST :=
  match tree with
  | Node op children => Node op (map Clone children)
  | Leaf fn grouping args isRaw => Leaf fn grouping (map (fun a => a) args) isRaw
  end.

(** The single-value type assertion of [x] to a [*Node]. *)
Definition assertNode (x : CriteriaAST) : outcome CriteriaAST :=
  match x with
  | Node _ _ => Returned x
  | Leaf _ _ _ _ => Panicked InterfaceConversion
  end.

Definition allChildrenLeaves (tree : CriteriaAST) : bool :=
  match tree with
  | Node _ children => forallb IsLeaf children
  | Leaf _ _ _ _ => false
  end.

(** ** The configuration, package [cfg] *)

Module cfg.

(** Modelled from the spec: [cfg.FilterNode] is declared outside
    parser.go. The fields are the ones [parseOperation], [parseFunction]
    and [parseCriteria] read; [Not] is a pointer, [nil] is [None]. *)
Inductive FilterNode : Type := mkFilterNode {
  And : list FilterNode;
  Or : list FilterNode;
  Not : option FilterNode;
  From : string;
  To : string;
  Cc : string;
  Bcc : string;
  ReplyTo : string;
  Subject : string;
  List : string;
  Has : string;
  Query : string;
  IsEscaped : bool
}.

(** [s != ""] *)
Definition nonEmpty (s : string) : bool := negb (String.eqb s "").

Definition named (present : bool) (name : string) : list string :=
  if present then [name] else [].

(** Modelled from the spec: [NonEmptyFields] is declared outside
    parser.go; it collects the names of all non-empty predicate and
    combinator fields, in the documented order and, or, not, from, to,
    cc, bcc, replyTo, subject, list, has, query. A field is non-empty by
    the test [parseOperation] and [parseFunction] apply to it. *)
Definition NonEmptyFields (f : FilterNode) : list string :=
  named (0 <? length (And f)) "and" ++
  named (0 <? length (Or f)) "or" ++
  named (match Not f with Some _ => true | None => false end) "not" ++
  named (nonEmpty (From f)) "from" ++
  named (nonEmpty (To f)) "to" ++
  named (nonEmpty (Cc f)) "cc" ++
  named (nonEmpty (Bcc f)) "bcc" ++
  named (nonEmpty (ReplyTo f)) "replyTo" ++
  named (nonEmpty (Subject f)) "subject" ++
  named (nonEmpty (List f)) "list" ++
  named (nonEmpty (Has f)) "has" ++
  named (nonEmpty (Query f)) "query".

(** Modelled from the spec: [cfg.Rule] is declared outside parser.go; a
    filter and an opaque action set. *)
Record Rule (ActionsT : Type) : Type := mkRule {
  Filter : FilterNode;
  Actions : ActionsT
}.
Arguments mkRule {ActionsT} _ _.
Arguments Filter {ActionsT} _.
Arguments Actions {ActionsT} _.

(** Modelled from the spec: of [cfg.Config] the parser reads [Rules]. *)
Record Config (ActionsT : Type) : Type := mkConfig {
  Rules : list (Rule ActionsT)
}.
Arguments mkConfig {ActionsT} _.
Arguments Rules {ActionsT} _.

End cfg.

(** ** Building the criteria tree *)

Definition bindResult {A B : Type} (m : result A) (k : A -> result B) : result B :=
  match m with
  | Ok a => k a
  | Err e => Err e
  end.

Definition allowed : list string := ["from"; "to"; "subject"].

(** [nil] is [None]. *)
Definition checkSyntax (f : cfg.FilterNode) : option error :=
  let fs := cfg.NonEmptyFields f in
  if negb (length fs =? 1) then
    if length fs =? 0 then
      Some (New "empty filter node")
    else
      Some (New ("multiple fields specified in the same filter node: "
                 ++ String.concat "," fs))
  else if negb (cfg.IsEscaped f) then
    None
  else if existsb (fun s => String.eqb (nth 0 fs "") s) allowed then
    None
  else
    Some (New ("'isRaw' can be used only with fields " ++ String.concat ", " allowed)).

Definition parseOperation (f : cfg.FilterNode) : OperationType * list cfg.FilterNode :=
  if 0 <? length (cfg.And f) then (OperationAnd, cfg.And f)
  else if 0 <? length (cfg.Or f) then (OperationOr, cfg.Or f)
  else match cfg.Not f with
       | Some n => (OperationNot, [n])
       | None => (OperationNone, [])
       end.

Definition parseFunction (f : cfg.FilterNode) : FunctionType * string :=
  if cfg.nonEmpty (cfg.From f) then (FunctionFrom, cfg.From f)
  else if cfg.nonEmpty (cfg.To f) then (FunctionTo, cfg.To f)
  else if cfg.nonEmpty (cfg.Cc f) then (FunctionCc, cfg.Cc f)
  else if cfg.nonEmpty (cfg.Bcc f) then (FunctionBcc, cfg.Bcc f)
  else if cfg.nonEmpty (cfg.ReplyTo f) then (FunctionReplyTo, cfg.ReplyTo f)
  else if cfg.nonEmpty (cfg.Subject f) then (FunctionSubject, cfg.Subject f)
  else if cfg.nonEmpty (cfg.List f) then (FunctionList, cfg.List f)
  else if cfg.nonEmpty (cfg.Has f) then (FunctionHas, cfg.Has f)
  else if cfg.nonEmpty (cfg.Query f) then (FunctionQuery, cfg.Query f)
  else (FunctionNone, "").

(** The loop [for _, c := range children] of [parseCriteria], over the
    recursive call [rec]: the first error returns, a result is appended. *)
Fixpoint forChildren (rec : cfg.FilterNode -> result CriteriaAST)
    (children : list cfg.FilterNode) (astchildren : list CriteriaAST)
    : result (list CriteriaAST) :=
  match children with
  | [] => Ok astchildren
  | c :: rest =>
      match rec c with
      | Err err => Err err
      | Ok astc => forChildren rec rest (astchildren ++ [astc])
      end
  end.

(** The body of [parseCriteria], with the recursive call as [rec]. *)
Definition parseCriteria_body (rec : cfg.FilterNode -> result CriteriaAST)
    (f : cfg.FilterNode) : result CriteriaAST :=
  match checkSyntax f with
  | Some err => Err err
  | None =>
      let (op, children) := parseOperation f in
      if negb (OperationType_eqb op OperationNone) then
        bindResult (forChildren rec children [])
          (fun astchildren => Ok (Node op astchildren))
      else
        let (fn, arg) := parseFunction f in
        if negb (FunctionType_eqb fn FunctionNone) then
          Ok (Leaf fn OperationNone [arg] (cfg.IsEscaped f))
        else
          Err (New "empty filter node")
  end.

(** [parseCriteria], by structural recursion on the filter node: the
    children [parseOperation] returns are reached through the field it
    selected. [parseCriteria_unfold] below shows that it satisfies the
    equation [parseCriteria f = parseCriteria_body parseCriteria f]. *)
Fixpoint parseCriteria (f : cfg.FilterNode) : result CriteriaAST :=
  match checkSyntax f with
  | Some err => Err err
  | None =>
      if 0 <? length (cfg.And f) then
        bindResult (forChildren parseCriteria (cfg.And f) [])
          (fun astchildren => Ok (Node OperationAnd astchildren))
      else if 0 <? length (cfg.Or f) then
        bindResult (forChildren parseCriteria (cfg.Or f) [])
          (fun astchildren => Ok (Node OperationOr astchildren))
      else
        match cfg.Not f with
        | Some n =>
            match parseCriteria n with
            | Err err => Err err
            | Ok astc => Ok (Node OperationNot ([] ++ [astc]))
            end
        | None =>
            let (fn, arg) := parseFunction f in
            if negb (FunctionType_eqb fn FunctionNone) then
              Ok (Leaf fn OperationNone [arg] (cfg.IsEscaped f))
            else
              Err (New "empty filter node")
        end
  end.

(** ** Rules and the rule compiler *)

(** [Rule]: the intermediate representation of a Gmail filter. [Actions]
    is [cfg.Actions], which the parser only copies and tests with
    [Empty]; it is the type parameter [ActionsT]. *)
Record Rule (ActionsT : Type) : Type := mkRule {
  Criteria : CriteriaAST;
  Actions : ActionsT
}.
Arguments mkRule {ActionsT} _ _.
Arguments Criteria {ActionsT} _.
Arguments Actions {ActionsT} _.

Section Parser.

Context {ActionsT : Type}.

(** The collaborators declared outside parser.go: [cfg.Actions.Empty],
    [SimplifyCriteria] and [reporting.Prettify]. *)
Variable Empty : ActionsT -> bool.
Variable SimplifyCriteria : CriteriaAST -> result CriteriaAST.
Variable Prettify : cfg.Rule ActionsT -> bool -> string.

Definition parseRule (rule : cfg.Rule ActionsT) : result (Rule ActionsT) :=
  match parseCriteria (cfg.Filter rule) with
  | Err err => Err (Wrap "parsing criteria: " err)
  | Ok crit =>
      match SimplifyCriteria crit with
      | Err err => Err (Wrap "simplifying criteria: " err)
      | Ok scrit =>
          if Empty (cfg.Actions rule) then
            Err (New "empty action")
          else
            Ok {| Criteria := scrit; Actions := cfg.Actions rule |}
      end
  end.

(** The condition of the first [if] of [Parse], lines 56 to 62, once
    the assertion of [root.Children[0]] to a [*Node] has given [left];
    [&&] short-circuits, so [root.Children[1]] is read only when the
    conjuncts before it hold. *)
Definition leftIsOrOfLeaves (root left : CriteriaAST)
    (rootChildren leftChildren : list CriteriaAST) : outcome bool :=
  if allChildrenLeaves left
     && (length rootChildren =? 2)
     && OperationType_eqb (RootOperation root) OperationAnd
     && (1 <? length leftChildren)
     && OperationType_eqb (RootOperation left) OperationOr
  then
    c1 <- index rootChildren 1 ;;
    Returned (OperationType_eqb (RootOperation c1) OperationNot)
  else Returned false.

(** The loop [for _, child := range left.Children], lines 63 to 74. *)
Fixpoint forLeftChildren (rootChildren : list CriteriaAST) (actions : ActionsT)
    (leftChildren : list CriteriaAST) (res : list (Rule ActionsT))
    : outcome (list (Rule ActionsT)) :=
  match leftChildren with
  | [] => Returned res
  | child :: rest =>
      let children := [] ++ [child] in
      c1 <- index rootChildren 1 ;;
      n <- assertNode c1 ;;
      let children := children ++ [Clone n] in
      forLeftChildren rootChildren actions rest
        (res ++ [{| Criteria := Node OperationAnd children; Actions := actions |}])
  end.

(** The loop [for _, rem_child := range root.Children[1:]], lines 94 to
    96. *)
Fixpoint forRemaining (remaining : list CriteriaAST) (children : list CriteriaAST)
    : outcome (list CriteriaAST) :=
  match remaining with
  | [] => Returned children
  | rem_child :: rest =>
      n <- assertNode rem_child ;;
      forRemaining rest (children ++ [Clone n])
  end.

(** The loop [for _, arg := range leaf.Args], lines 86 to 104. *)
Fixpoint forArgs (rootChildren : list CriteriaAST) (isRaw : bool) (actions : ActionsT)
    (args : list string) (res : list (Rule ActionsT))
    : outcome (list (Rule ActionsT)) :=
  match args with
  | [] => Returned res
  | arg :: rest =>
      let children := [] ++ [Leaf FunctionList OperationOr [arg] isRaw] in
      remaining <- sliceFrom rootChildren 1 ;;
      children <- forRemaining remaining children ;;
      forArgs rootChildren isRaw actions rest
        (res ++ [{| Criteria := Node OperationAnd children; Actions := actions |}])
  end.

(** Lines 49 to 112 of [Parse]: what one parsed rule [r] adds to [res].
    A root that is a Node with [root.Children[0]] a Node either matches
    the first [if] or reaches the final [else], which appends nothing;
    with [root.Children[0]] a Leaf the first [if] fails on its [ok]. *)
Definition expand (r : Rule ActionsT) (res : list (Rule ActionsT))
    : outcome (list (Rule ActionsT)) :=
  match Criteria r with
  | Node _ rootChildren =>
      let root := Criteria r in
      c0 <- index rootChildren 0 ;;
      match c0 with
      | Node _ leftChildren =>
          fires <- leftIsOrOfLeaves root c0 rootChildren leftChildren ;;
          if fires then
            forLeftChildren rootChildren (Actions r) leftChildren res
          else
            Returned res
      | Leaf _ _ args isRaw =>
          if OperationType_eqb (RootOperation root) OperationAnd
             && OperationType_eqb (RootOperation c0) OperationOr
             && (1 <? length args)
          then forArgs rootChildren isRaw (Actions r) args res
          else Returned res
      end
  | Leaf _ _ _ _ => Returned (res ++ [r])
  end.

(** The loop of [Parse] from rule number [i] on. The pair is the Go
    return value: on an error the rule slice is [nil] (here [[]]). *)
Fixpoint ParseFrom (i : nat) (rules : list (cfg.Rule ActionsT))
    (res : list (Rule ActionsT))
    : outcome (list (Rule ActionsT) * option error) :=
  match rules with
  | [] => Returned (res, None)
  | rule :: rest =>
      match parseRule rule with
      | Err err =>
          Returned ([], Some (WithDetails
                                (Wrap ("rule #" ++ decimal i ++ ": ") err)
                                ("Rule: " ++ Prettify rule false)))
      | Ok r =>
          res <- expand r res ;;
          ParseFrom (S i) rest res
      end
  end.

Definition Parse (config : cfg.Config ActionsT)
    : outcome (list (Rule ActionsT) * option error) :=
  ParseFrom 0 (cfg.Rules config) [].

End Parser.

(** ** Vocabulary of the specification *)

(** Every node of a specification tree: the node itself and, through its
    [and], [or] and [not] fields, the nodes below it. *)
Fixpoint subnodes (f : cfg.FilterNode) : list cfg.FilterNode :=
  f :: flat_map subnodes (cfg.And f)
    ++ flat_map subnodes (cfg.Or f)
    ++ match cfg.Not f with
       | Some n => subnodes n
       | None => []
       end.

(** A node breaks the syntax rules when it has no populated field, more
    than one, or [isEscaped] with a single populated field other than
    from, to and subject. *)
Definition syntaxViolation (f : cfg.FilterNode) : bool :=
  match cfg.NonEmptyFields f with
  | [] => true
  | [name] => cfg.IsEscaped f && negb (existsb (String.eqb name) allowed)
  | _ :: _ :: _ => true
  end.

(** Children built in their original order, stopping at the first error. *)
Fixpoint mapResult {A B : Type} (g : A -> result B) (l : list A) : result (list B) :=
  match l with
  | [] => Ok []
  | x :: rest =>
      bindResult (g x) (fun y => bindResult (mapResult g rest) (fun ys => Ok (y :: ys)))
  end.

(** The predicate a field name stands for, with the field's value. *)
Definition predicateOf (name : string) (f : cfg.FilterNode)
    : option (FunctionType * string) :=
  if String.eqb name "from" then Some (FunctionFrom, cfg.From f)
  else if String.eqb name "to" then Some (FunctionTo, cfg.To f)
  else if String.eqb name "cc" then Some (FunctionCc, cfg.Cc f)
  else if String.eqb name "bcc" then Some (FunctionBcc, cfg.Bcc f)
  else if String.eqb name "replyTo" then Some (FunctionReplyTo, cfg.ReplyTo f)
  else if String.eqb name "subject" then Some (FunctionSubject, cfg.Subject f)
  else if String.eqb name "list" then Some (FunctionList, cfg.List f)
  else if String.eqb name "has" then Some (FunctionHas, cfg.Has f)
  else if String.eqb name "query" then Some (FunctionQuery, cfg.Query f)
  else None.

(** The combinator a field name stands for, with the field's children. *)
Definition combinatorOf (name : string) (f : cfg.FilterNode)
    : option (OperationType * list cfg.FilterNode) :=
  if String.eqb name "and" then Some (OperationAnd, cfg.And f)
  else if String.eqb name "or" then Some (OperationOr, cfg.Or f)
  else if String.eqb name "not" then
    Some (OperationNot, match cfg.Not f with Some n => [n] | None => [] end)
  else None.

(** What section 4.2 asks [Build] to return for a node whose single
    populated field is [name], over the builder [build] for the children:
    a Node for a combinator, a Leaf for a predicate. *)
Definition builtFrom (build : cfg.FilterNode -> result CriteriaAST)
    (name : string) (f : cfg.FilterNode) : option (result CriteriaAST) :=
  match combinatorOf name f, predicateOf name f with
  | Some (op, children), _ =>
      Some (bindResult (mapResult build children) (fun cs => Ok (Node op cs)))
  | None, Some (fn, arg) =>
      Some (Ok (Leaf fn OperationNone [arg] (cfg.IsEscaped f)))
  | None, None => None
  end.

(** The shape of the trees [parseCriteria] returns: a Node carries a
    combinator and at least one child, a Not node exactly one; a Leaf
    carries a predicate, no grouping and a single non-empty argument, and
    is raw only for from, to and subject. *)
Fixpoint wellBuilt (tree : CriteriaAST) : bool :=
  match tree with
  | Node op children =>
      negb (OperationType_eqb op OperationNone)
      && (0 <? length children)
      && (if OperationType_eqb op OperationNot then length children =? 1 else true)
      && forallb wellBuilt children
  | Leaf fn grouping args isRaw =>
      negb (FunctionType_eqb fn FunctionNone)
      && OperationType_eqb grouping OperationNone
      && match args with
         | [arg] => cfg.nonEmpty arg
         | _ => false
         end
      && (if isRaw
          then FunctionType_eqb fn FunctionFrom
               || FunctionType_eqb fn FunctionTo
               || FunctionType_eqb fn FunctionSubject
          else true)
  end.

(** ** Sample inputs *)

Module Sample.

(** A node with no populated field. *)
Definition emptyNode : cfg.FilterNode :=
  cfg.mkFilterNode [] [] None "" "" "" "" "" "" "" "" "" false.

Definition fromNode (s : string) : cfg.FilterNode :=
  cfg.mkFilterNode [] [] None s "" "" "" "" "" "" "" "" false.

Definition toNode (s : string) : cfg.FilterNode :=
  cfg.mkFilterNode [] [] None "" s "" "" "" "" "" "" "" false.

Definition subjectNode (s : string) : cfg.FilterNode :=
  cfg.mkFilterNode [] [] None "" "" "" "" "" s "" "" "" false.

Definition listNode (s : string) (isEscaped : bool) : cfg.FilterNode :=
  cfg.mkFilterNode [] [] None "" "" "" "" "" "" s "" "" isEscaped.

Definition andNode (children : list cfg.FilterNode) : cfg.FilterNode :=
  cfg.mkFilterNode children [] None "" "" "" "" "" "" "" "" "" false.

Definition orNode (children : list cfg.FilterNode) : cfg.FilterNode :=
  cfg.mkFilterNode [] children None "" "" "" "" "" "" "" "" "" false.

Definition notNode (child : cfg.FilterNode) : cfg.FilterNode :=
  cfg.mkFilterNode [] [] (Some child) "" "" "" "" "" "" "" "" "" false.

(** An action set as the list of its action names; empty when no action
    is set. *)
Definition Actions : Type := list string.

Definition Empty (a : Actions) : bool :=
  match a with
  | [] => true
  | _ :: _ => false
  end.

(** A simplifier that changes nothing. *)
Definition keep (crit : CriteriaAST) : result CriteriaAST := Ok crit.

(** A simplifier whose result is [tree]. *)
Definition simplifiesTo (tree : CriteriaAST) (crit : CriteriaAST) : result CriteriaAST :=
  Ok tree.

Definition noDump (rule : cfg.Rule Actions) (multiline : bool) : string := "".

Definition leaf (fn : FunctionType) (arg : string) : CriteriaAST :=
  Leaf fn OperationNone [arg] false.

(** [and: [{from: a}, {to: b}]] with the action archive. *)
Definition fromAndTo : cfg.Rule Actions :=
  cfg.mkRule (andNode [fromNode "a"; toNode "b"]) ["archive"].

(** [and: [{or: [{from: a}, {from: b}]}, {not: {subject: x}}]]: the
    end-to-end example of the specification. *)
Definition eitherSenderNotSubject : cfg.Rule Actions :=
  cfg.mkRule
    (andNode [orNode [fromNode "a"; fromNode "b"]; notNode (subjectNode "x")])
    ["archive"].

(** A rule with a valid filter and an action. *)
Definition fromA : cfg.Rule Actions := cfg.mkRule (fromNode "a") ["archive"].

(** A rule with neither a populated field nor an action. *)
Definition nothing : cfg.Rule Actions := cfg.mkRule emptyNode [].

(** A rule with a valid filter and no action. *)
Definition noAction : cfg.Rule Actions := cfg.mkRule (fromNode "a") [].

(** A list leaf over two lists, grouped by Or, next to a Not node. *)
Definition listsAndNot : CriteriaAST :=
  Node OperationAnd
    [Leaf FunctionList OperationOr ["a"; "b"] false;
     Node OperationNot [leaf FunctionSubject "x"]].

(** A list leaf over two lists, grouped by Or, next to a plain leaf. *)
Definition listsAndLeaf : CriteriaAST :=
  Node OperationAnd
    [Leaf FunctionList OperationOr ["a"; "b"] false; leaf FunctionFrom "x"].

(** A Node without children. *)
Definition childless : CriteriaAST := Node OperationAnd [].

End Sample.

(** ** Induction over trees *)

Section CriteriaAST_induction.

Variable P : CriteriaAST -> Prop.
Hypothesis HNode : forall op children, Forall P children -> P (Node op children).
Hypothesis HLeaf : forall fn grouping args isRaw, P (Leaf fn grouping args isRaw).

Fixpoint CriteriaAST_nested_ind (tree : CriteriaAST) : P tree :=
  match tree with
  | Node op children =>
      HNode op children
        ((fix all (l : list CriteriaAST) : Forall P l :=
            match l with
            | [] => Forall_nil P
            | t :: rest => Forall_cons t (CriteriaAST_nested_ind t) (all rest)
            end) children)
  | Leaf fn grouping args isRaw => HLeaf fn grouping args isRaw
  end.

End CriteriaAST_induction.

Section FilterNode_induction.

Variable P : cfg.FilterNode -> Prop.
Hypothesis Hstep : forall f,
  Forall P (cfg.And f) -> Forall P (cfg.Or f) ->
  (forall n, cfg.Not f = Some n -> P n) -> P f.

Fixpoint FilterNode_nested_ind (f : cfg.FilterNode) : P f :=
  let all := fix all (l : list cfg.FilterNode) : Forall P l :=
    match l with
    | [] => Forall_nil P
    | c :: rest => Forall_cons c (FilterNode_nested_ind c) (all rest)
    end in
  match f as f0 return P f0 with
  | cfg.mkFilterNode a o n fr to cc bcc rt su li ha qu esc =>
      Hstep (cfg.mkFilterNode a o n fr to cc bcc rt su li ha qu esc)
        (all a) (all o)
        (match n as n0
               return forall m, n0 = Some m -> P m with
         | Some c => fun m E =>
             match E in _ = s
                   return match s with Some k => P k | None => True end with
             | eq_refl => FilterNode_nested_ind c
             end
         | None => fun m E =>
             match E in _ = s
                   return match s with Some k => P m | None => True end with
             | eq_refl => I
             end
         end)
  end.

End FilterNode_induction.

(** ** The tree model *)

Lemma map_same {A : Type} (l : list A) : map (fun a => a) l = l.
Proof. induction l as [|x l IH]; simpl; [reflexivity | now rewrite IH]. Qed.

(** A clone is structurally equal to the tree it copies. *)
Lemma Clone_equal (tree : CriteriaAST) : Clone tree = tree.
Proof.
  induction tree as [op children IH | fn grouping args isRaw]
    using CriteriaAST_nested_ind; simpl.
  - f_equal. induction IH as [|t rest Ht _ IHrest]; simpl; [reflexivity|].
    now rewrite Ht, IHrest.
  - now rewrite map_same.
Qed.

Lemma OperationType_eqb_eq (a b : OperationType) :
  OperationType_eqb a b = true <-> a = b.
Proof. destruct a, b; simpl; split; intro H; congruence. Qed.

Lemma FunctionType_eqb_eq (a b : FunctionType) :
  FunctionType_eqb a b = true <-> a = b.
Proof. destruct a, b; simpl; split; intro H; congruence. Qed.

Lemma allChildrenLeaves_Node (op : OperationType) (children : list CriteriaAST) :
  allChildrenLeaves (Node op children) = true <->
  Forall (fun c => IsLeaf c = true) children.
Proof. simpl. rewrite forallb_forall, Forall_forall. reflexivity. Qed.

(** ** The tree builder *)

Lemma forChildren_mapResult (rec : cfg.FilterNode -> result CriteriaAST)
    (children : list cfg.FilterNode) (astchildren : list CriteriaAST) :
  forChildren rec children astchildren =
  bindResult (mapResult rec children) (fun built => Ok (astchildren ++ built)).
Proof.
  revert astchildren.
  induction children as [|c rest IH]; intro astchildren; simpl.
  - now rewrite app_nil_r.
  - destruct (rec c) as [astc|err]; simpl; [|reflexivity].
    rewrite IH. destruct (mapResult rec rest) as [built|err]; simpl; [|reflexivity].
    now rewrite <- app_assoc.
Qed.

(** The recursion equation of [parseCriteria], in the shape of the Go
    function. *)
Lemma parseCriteria_unfold (f : cfg.FilterNode) :
  parseCriteria f = parseCriteria_body parseCriteria f.
Proof.
  destruct f as [a o n fr to cc bcc rt su li ha qu esc].
  unfold parseCriteria_body, parseOperation.
  cbn -[checkSyntax parseFunction Nat.ltb].
  destruct (checkSyntax _) as [err|]; [reflexivity|].
  destruct (0 <? length a); [reflexivity|].
  destruct (0 <? length o); [reflexivity|].
  destruct n as [c|]; cbn -[parseFunction]; [|reflexivity].
  destruct (parseCriteria c); reflexivity.
Qed.

(** A node with a single populated field: what [parseOperation] and
    [parseFunction] find on it, and the nodes below it. *)
Lemma single_populated (f : cfg.FilterNode) (name : string) :
  cfg.NonEmptyFields f = [name] ->
  match combinatorOf name f with
  | Some (op, children) =>
      parseOperation f = (op, children) /\ op <> OperationNone /\
      subnodes f = f :: flat_map subnodes children
  | None =>
      parseOperation f = (OperationNone, []) /\ subnodes f = [f] /\
      exists fn arg,
        predicateOf name f = Some (fn, arg) /\ parseFunction f = (fn, arg) /\
        fn <> FunctionNone
  end.
Proof.
  destruct f as [a o n fr to cc bcc rt su li ha qu esc].
  unfold cfg.NonEmptyFields. intro H.
  destruct a as [|a0 a']; simpl in H; try discriminate H;
  destruct o as [|o0 o']; simpl in H; try discriminate H;
  destruct n as [n0|]; simpl in H; try discriminate H;
  destruct fr as [|? ?]; simpl in H; try discriminate H;
  destruct to as [|? ?]; simpl in H; try discriminate H;
  destruct cc as [|? ?]; simpl in H; try discriminate H;
  destruct bcc as [|? ?]; simpl in H; try discriminate H;
  destruct rt as [|? ?]; simpl in H; try discriminate H;
  destruct su as [|? ?]; simpl in H; try discriminate H;
  destruct li as [|? ?]; simpl in H; try discriminate H;
  destruct ha as [|? ?]; simpl in H; try discriminate H;
  destruct qu as [|? ?]; simpl in H; try discriminate H;
  injection H as <-; cbn;
  repeat split; try discriminate; try (now rewrite ?app_nil_r);
  eexists; eexists; repeat split; discriminate.
Qed.

Lemma checkSyntax_violation (f : cfg.FilterNode) :
  checkSyntax f = None <-> syntaxViolation f = false.
Proof.
  unfold checkSyntax, syntaxViolation.
  destruct (cfg.NonEmptyFields f) as [|name [|other more]]; cbn -[allowed String.concat].
  - split; discriminate.
  - destruct (cfg.IsEscaped f); cbn -[allowed String.concat].
    + replace (existsb (fun s => (name =? s)%string) allowed)
        with (existsb (String.eqb name) allowed) by reflexivity.
      destruct (existsb (String.eqb name) allowed); cbn -[allowed String.concat];
        split; congruence.
    + split; reflexivity.
  - split; discriminate.
Qed.

Lemma checkSyntax_single (f : cfg.FilterNode) :
  checkSyntax f = None -> exists name, cfg.NonEmptyFields f = [name].
Proof.
  intro H. apply checkSyntax_violation in H. unfold syntaxViolation in H.
  destruct (cfg.NonEmptyFields f) as [|name [|other more]]; try discriminate H.
  now exists name.
Qed.

Lemma mapResult_Err {A B : Type} (g : A -> result B) (l : list A) :
  (exists e, mapResult g l = Err e) <-> Exists (fun x => exists e, g x = Err e) l.
Proof.
  induction l as [|x rest IH]; simpl.
  - split; [intros [e H]; discriminate H | intro H; inversion H].
  - rewrite Exists_cons, <- IH.
    destruct (g x) as [y|e0]; simpl.
    + destruct (mapResult g rest) as [ys|e1]; simpl; split.
      * intros [e H]; discriminate H.
      * intros [[e H]|[e H]]; discriminate H.
      * intros _. right. now exists e1.
      * intros _. now exists e1.
    + split; [intros _; left|intros _]; now exists e0.
Qed.

Lemma mapResult_Ok {A B : Type} (g : A -> result B) (l : list A) :
  Forall (fun x => exists y, g x = Ok y) l ->
  exists ys, mapResult g l = Ok ys /\ Forall2 (fun x y => g x = Ok y) l ys.
Proof.
  induction 1 as [|x rest [y Hy] _ [ys [Hys Hall]]]; simpl.
  - exists []. split; [reflexivity | constructor].
  - exists (y :: ys). rewrite Hy, Hys. split; [reflexivity | now constructor].
Qed.

(** On a node that passes [checkSyntax], [parseCriteria] returns what
    section 4.2 asks for the populated field. *)
Lemma parseCriteria_builtFrom (f : cfg.FilterNode) (name : string) :
  checkSyntax f = None -> cfg.NonEmptyFields f = [name] ->
  builtFrom parseCriteria name f = Some (parseCriteria f).
Proof.
  intros Hsyntax Hname. apply single_populated in Hname.
  rewrite (parseCriteria_unfold f). unfold parseCriteria_body, builtFrom.
  rewrite Hsyntax.
  destruct (combinatorOf name f) as [[op children]|].
  - destruct Hname as [-> [Hop _]].
    destruct op; try congruence; cbn [OperationType_eqb negb];
      rewrite forChildren_mapResult;
      destruct (mapResult parseCriteria children); reflexivity.
  - destruct Hname as [-> [_ [fn [arg [-> [-> Hfn]]]]]].
    cbn [OperationType_eqb negb].
    destruct fn; try congruence; reflexivity.
Qed.

Lemma combinatorOf_children (P : cfg.FilterNode -> Prop) (f : cfg.FilterNode)
    (name : string) (op : OperationType) (children : list cfg.FilterNode) :
  combinatorOf name f = Some (op, children) ->
  Forall P (cfg.And f) -> Forall P (cfg.Or f) ->
  (forall n, cfg.Not f = Some n -> P n) ->
  Forall P children.
Proof.
  unfold combinatorOf. intros H Hand Hor Hnot.
  destruct (name =? "and")%string; [injection H as _ <-; exact Hand|].
  destruct (name =? "or")%string; [injection H as _ <-; exact Hor|].
  destruct (name =? "not")%string; [injection H as _ <-|discriminate H].
  destruct (cfg.Not f) as [n|]; constructor; auto.
Qed.

Lemma existsb_flat_map {A B : Type} (p : B -> bool) (g : A -> list B) (l : list A) :
  existsb p (flat_map g l) = existsb (fun x => existsb p (g x)) l.
Proof.
  induction l as [|x rest IH]; simpl; [reflexivity|].
  now rewrite existsb_app, IH.
Qed.

(** [parseCriteria] fails exactly on the trees that hold a node breaking
    the syntax rules. *)
Lemma parseCriteria_fails_iff (f : cfg.FilterNode) :
  (exists e, parseCriteria f = Err e) <-> existsb syntaxViolation (subnodes f) = true.
Proof.
  induction f as [f IHand IHor IHnot] using FilterNode_nested_ind.
  destruct (checkSyntax f) as [err|] eqn:Hsyntax.
  - split; intros _.
    + destruct f; cbn [subnodes existsb].
      destruct (syntaxViolation _) eqn:Hv; [reflexivity|].
      apply checkSyntax_violation in Hv. congruence.
    + exists err. rewrite parseCriteria_unfold. unfold parseCriteria_body.
      now rewrite Hsyntax.
  - destruct (checkSyntax_single f Hsyntax) as [name Hname].
    pose proof (parseCriteria_builtFrom f name Hsyntax Hname) as Hbuilt.
    pose proof (single_populated f name Hname) as Hshape.
    apply checkSyntax_violation in Hsyntax.
    unfold builtFrom in Hbuilt.
    destruct (combinatorOf name f) as [[op children]|] eqn:Hcomb.
    + destruct Hshape as [_ [_ ->]]. cbn [existsb]. rewrite Hsyntax. cbn [orb].
      injection Hbuilt as Hbuilt. rewrite <- Hbuilt.
      pose proof (combinatorOf_children _ f name op children Hcomb IHand IHor IHnot)
        as IH.
      rewrite existsb_flat_map, existsb_exists.
      transitivity (exists e, mapResult parseCriteria children = Err e).
      * destruct (mapResult parseCriteria children) as [cs|e0]; simpl; split;
          intros [e H]; try discriminate H; now exists e0.
      * rewrite mapResult_Err, Exists_exists. rewrite Forall_forall in IH.
        split; intros [c [Hin Hc]]; exists c; (split; [exact Hin|]);
          now apply (IH c Hin).
    + destruct Hshape as [_ [-> [fn [arg [Hpred _]]]]].
      rewrite Hpred in Hbuilt. injection Hbuilt as Hbuilt. rewrite <- Hbuilt.
      cbn [existsb]. rewrite Hsyntax. split; [intros [e H]|intro H]; discriminate H.
Qed.

Lemma mapResult_Ok_inv {A B : Type} (g : A -> result B) (l : list A) (ys : list B) :
  mapResult g l = Ok ys -> Forall2 (fun x y => g x = Ok y) l ys.
Proof.
  revert ys. induction l as [|x rest IH]; intros ys H; simpl in H.
  - injection H as <-. constructor.
  - destruct (g x) as [y|e] eqn:Hx; simpl in H; [|discriminate H].
    destruct (mapResult g rest) as [ys'|e] eqn:Hrest; simpl in H; [|discriminate H].
    injection H as <-. constructor; [exact Hx | now apply IH].
Qed.

Lemma mapResult_Err_origin {A B : Type} (g : A -> result B) (l : list A) (e : error) :
  mapResult g l = Err e -> exists x, In x l /\ g x = Err e.
Proof.
  induction l as [|x rest IH]; simpl; intro H; [discriminate H|].
  destruct (g x) as [y|e0] eqn:Hx; simpl in H.
  - destruct (mapResult g rest) as [ys|e1]; simpl in H; [discriminate H|].
    destruct (IH H) as [c [Hin Hc]]. exists c. auto.
  - injection H as <-. exists x. auto.
Qed.

(** An error of [parseCriteria] is the [checkSyntax] error of a node of
    the tree: the last [return] of the Go function is never reached. *)
Lemma parseCriteria_error_origin (f : cfg.FilterNode) (e : error) :
  parseCriteria f = Err e -> exists n, In n (subnodes f) /\ checkSyntax n = Some e.
Proof.
  revert e.
  induction f as [f IHand IHor IHnot] using FilterNode_nested_ind. intros e Hfail.
  destruct (checkSyntax f) as [err|] eqn:Hsyntax.
  - rewrite parseCriteria_unfold in Hfail. unfold parseCriteria_body in Hfail.
    rewrite Hsyntax in Hfail. injection Hfail as ->.
    exists f. split; [destruct f; left; reflexivity | exact Hsyntax].
  - destruct (checkSyntax_single f Hsyntax) as [name Hname].
    pose proof (parseCriteria_builtFrom f name Hsyntax Hname) as Hbuilt.
    pose proof (single_populated f name Hname) as Hshape.
    unfold builtFrom in Hbuilt.
    destruct (combinatorOf name f) as [[op children]|] eqn:Hcomb.
    + destruct Hshape as [_ [_ ->]].
      injection Hbuilt as Hbuilt. rewrite Hfail in Hbuilt.
      pose proof (combinatorOf_children _ f name op children Hcomb IHand IHor IHnot)
        as IH.
      destruct (mapResult parseCriteria children) as [cs|e0] eqn:Hmap;
        simpl in Hbuilt; [discriminate Hbuilt|]. injection Hbuilt as ->.
      destruct (mapResult_Err_origin _ _ _ Hmap) as [c [Hin Hc]].
      rewrite Forall_forall in IH. destruct (IH c Hin e Hc) as [n [Hn Hcheck]].
      exists n. split; [|exact Hcheck]. right. apply in_flat_map. now exists c.
    + destruct Hshape as [_ [_ [fn [arg [Hpred _]]]]].
      rewrite Hpred, Hfail in Hbuilt. discriminate Hbuilt.
Qed.

(** C6: [parseCriteria] (Build) fails if and only if some node of the
    specification tree has no populated field, more than one populated
    field, or [isEscaped] set while its single populated field is not one
    of from, to and subject. The error it returns is the [checkSyntax]
    error of such a node: "empty filter node" for no field, the message
    listing the populated field names joined by commas for several, the
    'isRaw' message for a misplaced [isEscaped]. On exactly one populated
    field without an [isEscaped] violation [checkSyntax] passes. *)
Theorem parseCriteria_fails_iff_syntax_violation (f : cfg.FilterNode) :
  ((exists e, parseCriteria f = Err e) <->
   existsb syntaxViolation (subnodes f) = true) /\
  (forall e, parseCriteria f = Err e ->
     exists n, In n (subnodes f) /\ syntaxViolation n = true /\ checkSyntax n = Some e) /\
  (cfg.NonEmptyFields f = [] -> checkSyntax f = Some (New "empty filter node")) /\
  (1 < length (cfg.NonEmptyFields f) ->
     checkSyntax f =
     Some (New ("multiple fields specified in the same filter node: "
                ++ String.concat "," (cfg.NonEmptyFields f)))) /\
  (forall name, cfg.NonEmptyFields f = [name] ->
     checkSyntax f =
     if cfg.IsEscaped f && negb (existsb (String.eqb name) allowed)
     then Some (New "'isRaw' can be used only with fields from, to, subject")
     else None).
Proof.
  split; [apply parseCriteria_fails_iff|].
  split.
  { intros e H. destruct (parseCriteria_error_origin f e H) as [n [Hin Hn]].
    exists n. repeat split; auto.
    destruct (syntaxViolation n) eqn:Hv; [reflexivity|].
    apply checkSyntax_violation in Hv. congruence. }
  unfold checkSyntax.
  destruct (cfg.NonEmptyFields f) as [|x [|y more]]; cbn -[String.concat allowed].
  - repeat split; [intro H; inversion H | intros name H; discriminate H].
  - repeat split; [discriminate | intro H; apply Nat.lt_irrefl in H; contradiction |].
    intros name [= ->].
    replace (existsb (fun s => (name =? s)%string) allowed)
      with (existsb (String.eqb name) allowed) by reflexivity.
    destruct (cfg.IsEscaped f); [|reflexivity].
    destruct (existsb (String.eqb name) allowed); reflexivity.
  - repeat split; [discriminate | intros name H; discriminate H].
Qed.

(** C7: for every specification node that passes the syntax check, hence
    has exactly one populated field, [parseCriteria] (Build) returns what
    the field asks for: a combinator field (and, or, not) gives a Node
    with the corresponding Operation over the children built recursively
    in their original order, the first child error being returned at
    once; a predicate field gives a Leaf with that Function, the field's
    value as its single argument, Grouping None and IsRaw copied from
    [isEscaped]. When no node of the tree breaks the syntax rules the
    build succeeds and the root of the tree matches the field. *)
Theorem parseCriteria_root_matches_field (f : cfg.FilterNode) :
  checkSyntax f = None ->
  exists name,
    cfg.NonEmptyFields f = [name] /\
    builtFrom parseCriteria name f = Some (parseCriteria f) /\
    (existsb syntaxViolation (subnodes f) = false ->
     exists tree,
       parseCriteria f = Ok tree /\
       match combinatorOf name f, predicateOf name f with
       | Some (op, children), _ =>
           exists built,
             tree = Node op built /\
             Forall2 (fun c t => parseCriteria c = Ok t) children built
       | None, Some (fn, arg) =>
           tree = Leaf fn OperationNone [arg] (cfg.IsEscaped f)
       | None, None => False
       end).
Proof.
  intro Hsyntax.
  destruct (checkSyntax_single f Hsyntax) as [name Hname]. exists name.
  pose proof (parseCriteria_builtFrom f name Hsyntax Hname) as Hbuilt.
  repeat split; [exact Hname | exact Hbuilt |].
  intro Hvalid.
  destruct (parseCriteria f) as [tree|e] eqn:Hparse.
  - exists tree. split; [reflexivity|].
    unfold builtFrom in Hbuilt.
    destruct (combinatorOf name f) as [[op children]|].
    + injection Hbuilt as Hbuilt.
      destruct (mapResult parseCriteria children) as [built|e] eqn:Hmap;
        simpl in Hbuilt; [|discriminate Hbuilt].
      injection Hbuilt as <-. exists built.
      split; [reflexivity | now apply mapResult_Ok_inv].
    + destruct (predicateOf name f) as [[fn arg]|]; [|discriminate Hbuilt].
      now injection Hbuilt as <-.
  - assert (existsb syntaxViolation (subnodes f) = true) as Hbad
      by (apply parseCriteria_fails_iff; now exists e).
    congruence.
Qed.

Lemma parseCriteria_root_matches_field_witness :
  existsb syntaxViolation (subnodes (cfg.Filter Sample.eitherSenderNotSubject)) = false /\
  exists name,
    cfg.NonEmptyFields (cfg.Filter Sample.eitherSenderNotSubject) = [name] /\
    builtFrom parseCriteria name (cfg.Filter Sample.eitherSenderNotSubject) =
    Some (parseCriteria (cfg.Filter Sample.eitherSenderNotSubject)) /\
    (existsb syntaxViolation (subnodes (cfg.Filter Sample.eitherSenderNotSubject)) = false ->
     exists tree,
       parseCriteria (cfg.Filter Sample.eitherSenderNotSubject) = Ok tree /\
       match combinatorOf name (cfg.Filter Sample.eitherSenderNotSubject),
             predicateOf name (cfg.Filter Sample.eitherSenderNotSubject) with
       | Some (op, children), _ =>
           exists built,
             tree = Node op built /\
             Forall2 (fun c t => parseCriteria c = Ok t) children built
       | None, Some (fn, arg) =>
           tree = Leaf fn OperationNone [arg]
                    (cfg.IsEscaped (cfg.Filter Sample.eitherSenderNotSubject))
       | None, None => False
       end).
Proof.
  split; [reflexivity|].
  apply (parseCriteria_root_matches_field (cfg.Filter Sample.eitherSenderNotSubject)).
  reflexivity.
Defined.

(** The end-to-end filter of the specification builds into
    [And(Or(from a, from b), Not(subject x))]. *)
Example parseCriteria_eitherSenderNotSubject :
  parseCriteria (cfg.Filter Sample.eitherSenderNotSubject) =
  Ok (Node OperationAnd
        [Node OperationOr [Sample.leaf FunctionFrom "a"; Sample.leaf FunctionFrom "b"];
         Node OperationNot [Sample.leaf FunctionSubject "x"]]).
Proof. reflexivity. Qed.

(** ** The rewrite expansion *)

Lemma bind_Returned {A B : Type} (m : outcome A) (k : A -> outcome B) (b : B) :
  bind m k = Returned b <-> exists a, m = Returned a /\ k a = Returned b.
Proof.
  destruct m as [a|p]; simpl; split.
  - intro H. now exists a.
  - now intros [a' [[= ->] H]].
  - discriminate.
  - intros [a' [H _]]. discriminate H.
Qed.

Lemma index_0_nonempty {A : Type} (s : list A) :
  s <> [] -> exists x, index s 0 = Returned x /\ hd_error s = Some x.
Proof. destruct s as [|x rest]; [congruence|]. intros _. now exists x. Qed.

Lemma sliceFrom_1_cons {A : Type} (x : A) (rest : list A) :
  sliceFrom (x :: rest) 1 = Returned rest.
Proof. reflexivity. Qed.

Lemma forRemaining_Nodes (remaining children : list CriteriaAST) :
  Forall (fun c => IsLeaf c = false) remaining ->
  forRemaining remaining children = Returned (children ++ map Clone remaining).
Proof.
  intro H. revert children.
  induction H as [|c rest Hc _ IH]; intro children; simpl.
  - now rewrite app_nil_r.
  - destruct c; [|discriminate Hc]. cbn [assertNode bind].
    rewrite IH, <- app_assoc. reflexivity.
Qed.

Lemma forRemaining_Leaf (remaining children : list CriteriaAST) :
  Exists (fun c => IsLeaf c = true) remaining ->
  forRemaining remaining children = Panicked InterfaceConversion.
Proof.
  intro H. revert children.
  induction H as [c rest Hc | c rest _ IH]; intro children.
  - destruct c; [discriminate Hc | reflexivity].
  - destruct c; [cbn [forRemaining assertNode bind]; apply IH | reflexivity].
Qed.

Section ExpansionFacts.

Context {ActionsT : Type}.
Variable Empty : ActionsT -> bool.
Variable SimplifyCriteria : CriteriaAST -> result CriteriaAST.
Variable Prettify : cfg.Rule ActionsT -> bool -> string.

Lemma parseRule_Ok (rule : cfg.Rule ActionsT) (r : Rule ActionsT) :
  parseRule Empty SimplifyCriteria rule = Ok r ->
  exists crit,
    parseCriteria (cfg.Filter rule) = Ok crit /\
    SimplifyCriteria crit = Ok (Criteria r) /\
    Actions r = cfg.Actions rule /\
    Empty (cfg.Actions rule) = false.
Proof.
  unfold parseRule. intro H.
  destruct (parseCriteria (cfg.Filter rule)) as [crit|e]; [|discriminate H].
  destruct (SimplifyCriteria crit) as [scrit|e] eqn:Hs; [|discriminate H].
  destruct (Empty (cfg.Actions rule)); [discriminate H|].
  injection H as <-. exists crit. repeat split. exact Hs.
Qed.

Lemma forLeftChildren_Node (rootChildren leftChildren : list CriteriaAST)
    (actions : ActionsT) (c1 : CriteriaAST) (res : list (Rule ActionsT)) :
  nth_error rootChildren 1 = Some c1 -> IsLeaf c1 = false ->
  forLeftChildren rootChildren actions leftChildren res =
  Returned (res ++ map (fun child =>
                          {| Criteria := Node OperationAnd [child; Clone c1];
                             Actions := actions |}) leftChildren).
Proof.
  intros Hc1 Hnode. revert res.
  induction leftChildren as [|child rest IH]; intro res; simpl.
  - now rewrite app_nil_r.
  - unfold index. rewrite Hc1. destruct c1; [|discriminate Hnode].
    cbn [assertNode bind]. rewrite IH, <- app_assoc. reflexivity.
Qed.

Lemma forLeftChildren_Leaf (rootChildren leftChildren : list CriteriaAST)
    (actions : ActionsT) (c1 : CriteriaAST) (res : list (Rule ActionsT)) :
  nth_error rootChildren 1 = Some c1 -> IsLeaf c1 = true -> leftChildren <> [] ->
  forLeftChildren rootChildren actions leftChildren res = Panicked InterfaceConversion.
Proof.
  intros Hc1 Hleaf Hne. destruct leftChildren as [|child rest]; [congruence|].
  simpl. unfold index. rewrite Hc1. destruct c1; [discriminate Hleaf | reflexivity].
Qed.

Lemma forArgs_Nodes (c0 : CriteriaAST) (remaining : list CriteriaAST) (isRaw : bool)
    (actions : ActionsT) (args : list string) (res : list (Rule ActionsT)) :
  Forall (fun c => IsLeaf c = false) remaining ->
  forArgs (c0 :: remaining) isRaw actions args res =
  Returned (res ++ map (fun arg =>
                          {| Criteria :=
                               Node OperationAnd
                                 (Leaf FunctionList OperationOr [arg] isRaw
                                    :: map Clone remaining);
                             Actions := actions |}) args).
Proof.
  intro Hnodes. revert res.
  induction args as [|arg rest IH]; intro res.
  - simpl. now rewrite app_nil_r.
  - cbn [forArgs]. rewrite sliceFrom_1_cons. cbn [bind].
    rewrite (forRemaining_Nodes _ _ Hnodes). cbn [bind].
    rewrite IH, <- app_assoc. reflexivity.
Qed.

Lemma forArgs_Leaf (c0 : CriteriaAST) (remaining : list CriteriaAST) (isRaw : bool)
    (actions : ActionsT) (args : list string) (res : list (Rule ActionsT)) :
  Exists (fun c => IsLeaf c = true) remaining -> args <> [] ->
  forArgs (c0 :: remaining) isRaw actions args res = Panicked InterfaceConversion.
Proof.
  intros Hleaf Hne. destruct args as [|arg rest]; [congruence|].
  cbn [forArgs]. rewrite sliceFrom_1_cons. cbn [bind].
  now rewrite (forRemaining_Leaf _ _ Hleaf).
Qed.

Lemma forLeftChildren_app (rootChildren leftChildren : list CriteriaAST)
    (actions : ActionsT) (res : list (Rule ActionsT)) :
  forLeftChildren rootChildren actions leftChildren res =
  (out <- forLeftChildren rootChildren actions leftChildren [] ;;
   Returned (res ++ out)).
Proof.
  revert res. induction leftChildren as [|child rest IH]; intro res.
  - simpl. now rewrite app_nil_r.
  - cbn [forLeftChildren].
    destruct (index rootChildren 1) as [c1|p]; [|reflexivity]. cbn [bind].
    destruct (assertNode c1) as [n|p]; [|reflexivity]. cbn [bind].
    rewrite IH. rewrite (IH ([] ++ _)).
    destruct (forLeftChildren rootChildren actions rest []); [|reflexivity].
    cbn [bind]. now rewrite <- app_assoc.
Qed.

Lemma forArgs_app (rootChildren : list CriteriaAST) (isRaw : bool)
    (actions : ActionsT) (args : list string) (res : list (Rule ActionsT)) :
  forArgs rootChildren isRaw actions args res =
  (out <- forArgs rootChildren isRaw actions args [] ;; Returned (res ++ out)).
Proof.
  revert res. induction args as [|arg rest IH]; intro res.
  - simpl. now rewrite app_nil_r.
  - cbn [forArgs].
    destruct (sliceFrom rootChildren 1) as [remaining|p]; [|reflexivity]. cbn [bind].
    destruct (forRemaining remaining _) as [children|p]; [|reflexivity]. cbn [bind].
    rewrite IH. rewrite (IH ([] ++ _)).
    destruct (forArgs rootChildren isRaw actions rest []); [|reflexivity].
    cbn [bind]. now rewrite <- app_assoc.
Qed.

(** What a rule adds does not depend on the rules already emitted. *)
Lemma expand_app (r : Rule ActionsT) (res : list (Rule ActionsT)) :
  expand r res = (out <- expand r [] ;; Returned (res ++ out)).
Proof.
  unfold expand. destruct (Criteria r) as [op rootChildren|fn g args isRaw];
    [|reflexivity].
  cbn zeta.
  destruct (index rootChildren 0) as [c0|p]; [|reflexivity]. cbn [bind].
  destruct c0 as [lop leftChildren|fn g args isRaw].
  - destruct (leftIsOrOfLeaves _ _ _ _) as [fires|p]; [|reflexivity]. cbn [bind].
    destruct fires.
    + apply forLeftChildren_app.
    + cbn [bind]. now rewrite app_nil_r.
  - destruct (_ && _ && _).
    + apply forArgs_app.
    + cbn [bind]. now rewrite app_nil_r.
Qed.

End ExpansionFacts.

(** The [i]-th block of a concatenation sits right after the blocks
    before it. *)
Lemma concat_block {A : Type} (blocks : list (list A)) (i : nat) (block : list A) :
  nth_error blocks i = Some block ->
  firstn (length block)
    (skipn (length (concat (firstn i blocks))) (concat blocks)) = block.
Proof.
  revert blocks. induction i as [|i IH]; intros [|b0 rest] H; try discriminate H.
  - injection H as ->. cbn [firstn concat length skipn].
    now rewrite firstn_app, firstn_all, Nat.sub_diag, firstn_O, app_nil_r.
  - cbn [nth_error] in H. cbn [firstn concat].
    rewrite length_app, skipn_app, skipn_all2 by lia.
    replace (length b0 + length (concat (firstn i rest)) - length b0)
      with (length (concat (firstn i rest))) by lia.
    cbn [app]. now apply IH.
Qed.

(** ** The rule compiler *)

Section CompilerFacts.

Context {ActionsT : Type}.
Variable Empty : ActionsT -> bool.
Variable SimplifyCriteria : CriteriaAST -> result CriteriaAST.
Variable Prettify : cfg.Rule ActionsT -> bool -> string.

Lemma ParseFrom_step (i : nat) (rule : cfg.Rule ActionsT) (r : Rule ActionsT)
    (rest : list (cfg.Rule ActionsT)) (res emitted : list (Rule ActionsT)) :
  parseRule Empty SimplifyCriteria rule = Ok r ->
  expand r [] = Returned emitted ->
  ParseFrom Empty SimplifyCriteria Prettify i (rule :: rest) res =
  ParseFrom Empty SimplifyCriteria Prettify (S i) rest (res ++ emitted).
Proof.
  intros Hr Hexp. cbn [ParseFrom]. rewrite Hr, expand_app, Hexp. reflexivity.
Qed.

Lemma ParseFrom_panic (i : nat) (rule : cfg.Rule ActionsT) (r : Rule ActionsT)
    (rest : list (cfg.Rule ActionsT)) (res : list (Rule ActionsT)) (p : panic) :
  parseRule Empty SimplifyCriteria rule = Ok r ->
  expand r [] = Panicked p ->
  ParseFrom Empty SimplifyCriteria Prettify i (rule :: rest) res = Panicked p.
Proof.
  intros Hr Hexp. cbn [ParseFrom]. rewrite Hr, expand_app, Hexp. reflexivity.
Qed.

(** A rule whose simplified criteria is a Leaf passes through. *)
Lemma expand_Leaf (r : Rule ActionsT) (res : list (Rule ActionsT)) :
  IsLeaf (Criteria r) = true -> expand r res = Returned (res ++ [r]).
Proof.
  unfold expand. destruct (Criteria r); [discriminate | reflexivity].
Qed.

(** A rule whose simplified criteria is a Node that the first [if] does
    not match, over a first child that is a Node, adds nothing. *)
Lemma expand_Node_unmatched (r : Rule ActionsT) (res : list (Rule ActionsT))
    (op lop : OperationType) (leftChildren rest : list CriteriaAST) :
  Criteria r = Node op (Node lop leftChildren :: rest) ->
  leftIsOrOfLeaves (Criteria r) (Node lop leftChildren)
    (Node lop leftChildren :: rest) leftChildren = Returned false ->
  expand r res = Returned res.
Proof.
  intros Hc Hfires. unfold expand. rewrite Hc in *. cbn [index nth_error bind].
  cbn zeta. rewrite Hfires. reflexivity.
Qed.

(** A rule whose simplified criteria is a Node over a first child that
    is a Leaf not grouped by Or adds nothing. *)
Lemma expand_Leaf_unmatched (r : Rule ActionsT) (res : list (Rule ActionsT))
    (op grouping : OperationType) (fn : FunctionType) (args : list string)
    (isRaw : bool) (rest : list CriteriaAST) :
  Criteria r = Node op (Leaf fn grouping args isRaw :: rest) ->
  grouping <> OperationOr ->
  expand r res = Returned res.
Proof.
  intros Hc Hg. unfold expand. rewrite Hc. cbn [index nth_error bind].
  cbn zeta. cbn [RootOperation].
  destruct grouping; try congruence;
    now rewrite ?andb_false_r, ?andb_false_l.
Qed.

Lemma expand_or_of_leaves (r : Rule ActionsT) (res : list (Rule ActionsT))
    (leftChildren : list CriteriaAST) (c1 : CriteriaAST) :
  Criteria r = Node OperationAnd [Node OperationOr leftChildren; c1] ->
  1 < length leftChildren ->
  Forall (fun c => IsLeaf c = true) leftChildren ->
  RootOperation c1 = OperationNot ->
  expand r res =
  forLeftChildren [Node OperationOr leftChildren; c1] (Actions r) leftChildren res.
Proof.
  intros Hc Hlen Hleaves Hnot. unfold expand. rewrite Hc.
  cbn [index nth_error bind]. cbn zeta. unfold leftIsOrOfLeaves.
  apply allChildrenLeaves_Node with (op := OperationOr) in Hleaves.
  rewrite Hleaves. apply Nat.ltb_lt in Hlen. rewrite Hlen.
  cbn [length Nat.eqb RootOperation OperationType_eqb andb index nth_error bind].
  rewrite Hnot. reflexivity.
Qed.

Lemma expand_multi_arg_leaf (r : Rule ActionsT) (res : list (Rule ActionsT))
    (fn : FunctionType) (args : list string) (isRaw : bool)
    (remaining : list CriteriaAST) :
  Criteria r = Node OperationAnd (Leaf fn OperationOr args isRaw :: remaining) ->
  1 < length args ->
  expand r res =
  forArgs (Leaf fn OperationOr args isRaw :: remaining) isRaw (Actions r) args res.
Proof.
  intros Hc Hlen. unfold expand. rewrite Hc.
  cbn [index nth_error bind]. cbn zeta.
  apply Nat.ltb_lt in Hlen. rewrite Hlen. reflexivity.
Qed.

(** C2: for every input rule whose simplified criteria is a Node with
    Operation And and exactly 2 children, where children[0] is an Or Node
    with more than one child all of which are leaves, and children[1] is
    a Not Node (a Node whose root operation is Not), [Parse] emits
    exactly one output rule per child Ci of children[0], in original
    order, with criteria And(Ci, Clone(children[1])) and the original
    rule's Actions. *)
Theorem Parse_or_of_leaves_and_not (rule : cfg.Rule ActionsT) (r : Rule ActionsT)
    (leftChildren : list CriteriaAST) (c1 : CriteriaAST) :
  parseRule Empty SimplifyCriteria rule = Ok r ->
  Criteria r = Node OperationAnd [Node OperationOr leftChildren; c1] ->
  1 < length leftChildren ->
  Forall (fun c => IsLeaf c = true) leftChildren ->
  RootOperation c1 = OperationNot ->
  IsLeaf c1 = false ->
  (forall i rest res,
     ParseFrom Empty SimplifyCriteria Prettify i (rule :: rest) res =
     ParseFrom Empty SimplifyCriteria Prettify (S i) rest
       (res ++ map (fun ci => {| Criteria := Node OperationAnd [ci; Clone c1];
                                 Actions := cfg.Actions rule |}) leftChildren)) /\
  Parse Empty SimplifyCriteria Prettify (cfg.mkConfig [rule]) =
  Returned (map (fun ci => {| Criteria := Node OperationAnd [ci; Clone c1];
                              Actions := cfg.Actions rule |}) leftChildren,
            None).
Proof.
  intros Hr Hc Hlen Hleaves Hnot Hnode.
  destruct (parseRule_Ok _ _ _ _ Hr) as [_ [_ [_ [Hact _]]]].
  assert (expand r [] =
          Returned (map (fun ci => {| Criteria := Node OperationAnd [ci; Clone c1];
                                      Actions := cfg.Actions rule |}) leftChildren))
    as Hexp.
  { rewrite (expand_or_of_leaves r [] leftChildren c1 Hc Hlen Hleaves Hnot).
    rewrite (forLeftChildren_Node [Node OperationOr leftChildren; c1] _ _ c1 []
               eq_refl Hnode), Hact.
    reflexivity. }
  split.
  - intros i rest res. now apply ParseFrom_step with (r := r).
  - unfold Parse. cbn [cfg.Rules].
    rewrite (ParseFrom_step 0 rule r [] [] _ Hr Hexp). reflexivity.
Qed.

(** C3, amended: for every input rule whose simplified criteria is an
    And Node whose children[0] is a Leaf with more than one argument and
    root operation Or (so that Pattern A's precondition is false), and
    whose remaining children children[1:] are all Nodes, [Parse] emits
    exactly one output rule per argument a of that leaf, in original
    order, with criteria And(L_a, Clone(children[1]),
    Clone(children[2]), ...) where L_a is a new Leaf with Function List
    (whatever the Function of the original leaf), Grouping Or, Args [a]
    and IsRaw copied from the original leaf, and with the original
    rule's Actions. *)
Theorem Parse_multi_arg_leaf (rule : cfg.Rule ActionsT) (r : Rule ActionsT)
    (fn : FunctionType) (grouping : OperationType) (args : list string)
    (isRaw : bool) (remaining : list CriteriaAST) :
  parseRule Empty SimplifyCriteria rule = Ok r ->
  Criteria r = Node OperationAnd (Leaf fn grouping args isRaw :: remaining) ->
  RootOperation (Leaf fn grouping args isRaw) = OperationOr ->
  1 < length args ->
  Forall (fun c => IsLeaf c = false) remaining ->
  (forall i rest res,
     ParseFrom Empty SimplifyCriteria Prettify i (rule :: rest) res =
     ParseFrom Empty SimplifyCriteria Prettify (S i) rest
       (res ++ map (fun a =>
                      {| Criteria :=
                           Node OperationAnd
                             (Leaf FunctionList OperationOr [a] isRaw
                                :: map Clone remaining);
                         Actions := cfg.Actions rule |}) args)) /\
  Parse Empty SimplifyCriteria Prettify (cfg.mkConfig [rule]) =
  Returned (map (fun a =>
                   {| Criteria :=
                        Node OperationAnd
                          (Leaf FunctionList OperationOr [a] isRaw
                             :: map Clone remaining);
                      Actions := cfg.Actions rule |}) args,
            None).
Proof.
  intros Hr Hc Hroot Hlen Hnodes. cbn [RootOperation] in Hroot. subst grouping.
  destruct (parseRule_Ok _ _ _ _ Hr) as [_ [_ [_ [Hact _]]]].
  assert (expand r [] =
          Returned (map (fun a =>
                           {| Criteria :=
                                Node OperationAnd
                                  (Leaf FunctionList OperationOr [a] isRaw
                                     :: map Clone remaining);
                              Actions := cfg.Actions rule |}) args))
    as Hexp.
  { rewrite (expand_multi_arg_leaf r [] fn args isRaw remaining Hc Hlen).
    rewrite (forArgs_Nodes _ _ _ _ _ [] Hnodes), Hact. reflexivity. }
  split.
  - intros i rest res. now apply ParseFrom_step with (r := r).
  - unfold Parse. cbn [cfg.Rules].
    rewrite (ParseFrom_step 0 rule r [] [] _ Hr Hexp). reflexivity.
Qed.

(** C5, amended: for every input rule whose Actions are empty,
    compilation fails. The error is the empty-action error when the
    criteria builds and simplifies; when building or simplifying the
    criteria fails, the error is that of the criteria, since the action
    check comes after both. *)
Theorem parseRule_empty_actions (rule : cfg.Rule ActionsT) :
  Empty (cfg.Actions rule) = true ->
  exists e,
    parseRule Empty SimplifyCriteria rule = Err e /\
    Parse Empty SimplifyCriteria Prettify (cfg.mkConfig [rule]) =
    Returned ([], Some (WithDetails (Wrap "rule #0: " e)
                                    ("Rule: " ++ Prettify rule false))) /\
    e = match parseCriteria (cfg.Filter rule) with
        | Err err => Wrap "parsing criteria: " err
        | Ok crit =>
            match SimplifyCriteria crit with
            | Err err => Wrap "simplifying criteria: " err
            | Ok _ => New "empty action"
            end
        end.
Proof.
  intro Hempty. unfold Parse. cbn [cfg.Rules ParseFrom]. unfold parseRule.
  destruct (parseCriteria (cfg.Filter rule)) as [crit|err].
  - destruct (SimplifyCriteria crit) as [scrit|err].
    + rewrite Hempty. eexists. repeat split.
    + eexists. repeat split.
  - eexists. repeat split.
Qed.

Lemma ParseFrom_output (rules : list (cfg.Rule ActionsT)) (i : nat)
    (res out : list (Rule ActionsT)) :
  ParseFrom Empty SimplifyCriteria Prettify i rules res = Returned (out, None) <->
  exists outs,
    Forall2 (fun rule emitted =>
               exists r, parseRule Empty SimplifyCriteria rule = Ok r /\
                         expand r [] = Returned emitted) rules outs /\
    out = res ++ concat outs.
Proof.
  revert i res. induction rules as [|rule rest IH]; intros i res.
  - cbn [ParseFrom]. split.
    + intros [= <-]. exists []. split; [constructor | now rewrite app_nil_r].
    + intros [outs [Hall ->]]. inversion Hall. cbn. now rewrite app_nil_r.
  - cbn [ParseFrom].
    destruct (parseRule Empty SimplifyCriteria rule) as [r|err] eqn:Hr.
    + rewrite expand_app. destruct (expand r []) as [emitted|p] eqn:Hexp; cbn [bind].
      * rewrite IH. split.
        -- intros [outs [Hall ->]]. exists (emitted :: outs). split.
           ++ constructor; [now exists r | exact Hall].
           ++ cbn [concat]. now rewrite app_assoc.
        -- intros [outs [Hall ->]].
           inversion Hall as [|? emitted' ? outs' [r' [Hr' Hexp']] Hrest]; subst.
           assert (r' = r) as -> by congruence.
           assert (emitted' = emitted) as -> by congruence.
           exists outs'. split; [exact Hrest|]. cbn [concat]. now rewrite app_assoc.
      * split; [discriminate|].
        intros [outs [Hall _]].
        inversion Hall as [|? emitted' ? outs' [r' [Hr' Hexp']] Hrest]; subst.
        assert (r' = r) as -> by congruence. congruence.
    + split; [discriminate|].
      intros [outs [Hall _]].
      inversion Hall as [|? emitted' ? outs' [r' [Hr' Hexp']] Hrest]; subst.
      congruence.
Qed.

Lemma ParseFrom_first_error (before after : list (cfg.Rule ActionsT))
    (rule : cfg.Rule ActionsT) (outs : list (list (Rule ActionsT))) (err : error)
    (i : nat) (res : list (Rule ActionsT)) :
  Forall2 (fun rule emitted =>
             exists r, parseRule Empty SimplifyCriteria rule = Ok r /\
                       expand r [] = Returned emitted) before outs ->
  parseRule Empty SimplifyCriteria rule = Err err ->
  ParseFrom Empty SimplifyCriteria Prettify i (before ++ rule :: after) res =
  Returned ([], Some (WithDetails
                        (Wrap ("rule #" ++ decimal (i + length before) ++ ": ") err)
                        ("Rule: " ++ Prettify rule false))).
Proof.
  intros Hall Herr. revert i res.
  induction Hall as [|ok emitted before' outs' [r [Hr Hexp]] _ IH]; intros i res.
  - cbn [app ParseFrom length]. rewrite Herr, Nat.add_0_r. reflexivity.
  - cbn [app]. rewrite (ParseFrom_step i ok r _ res emitted Hr Hexp).
    rewrite IH. cbn [length]. now rewrite Nat.add_succ_comm.
Qed.

(** The text of the error [Parse] returns starts with the number of the
    rule. *)
Lemma Error_rule_number (i : nat) (err : error) (details : string) :
  Error (WithDetails (Wrap ("rule #" ++ decimal i ++ ": ") err) details) =
  ("rule #" ++ decimal i ++ ": " ++ Error err)%string.
Proof.
  cbn [Error]. generalize (decimal i) as d. intro d.
  cbn [append]. do 6 f_equal.
  induction d as [|c d IH]; cbn [append]; [reflexivity | now rewrite IH].
Qed.

(** C8: for every batch of input rules that compiles, the output is the
    concatenation, in input order, of what each input rule expands to:
    the output rules come in the order of their originating input
    rules, and those of one input rule are contiguous, at the indices
    from the sum of the sizes of the earlier expansions on, in the order
    in which the expansion emits them. *)
Theorem Parse_output_order (config : cfg.Config ActionsT)
    (out : list (Rule ActionsT)) :
  Parse Empty SimplifyCriteria Prettify config = Returned (out, None) <->
  exists outs,
    Forall2 (fun rule emitted =>
               exists r, parseRule Empty SimplifyCriteria rule = Ok r /\
                         expand r [] = Returned emitted)
            (cfg.Rules config) outs /\
    out = concat outs /\
    (forall i emitted,
       nth_error outs i = Some emitted ->
       firstn (length emitted)
         (skipn (length (concat (firstn i outs))) out) = emitted).
Proof.
  unfold Parse. rewrite ParseFrom_output. cbn [app].
  split; intros [outs H]; exists outs.
  - destruct H as [Hall ->]. repeat split; [exact Hall|].
    intros i emitted. apply concat_block.
  - destruct H as [Hall [-> _]]. now split.
Qed.

(** C9, amended: for every batch of input rules, if a rule fails (in
    Build, Simplify or the action check) and every rule before it
    compiles and expands, [Parse] returns an error and a nil rule
    sequence, whatever the rules after it are; the error carries the
    0-based index of that rule, which is the first failing one, and the
    rendered dump of that rule. *)
Theorem Parse_first_failing_rule (config : cfg.Config ActionsT)
    (before after : list (cfg.Rule ActionsT)) (rule : cfg.Rule ActionsT)
    (outs : list (list (Rule ActionsT))) (err : error) :
  cfg.Rules config = before ++ rule :: after ->
  Forall2 (fun rule emitted =>
             exists r, parseRule Empty SimplifyCriteria rule = Ok r /\
                       expand r [] = Returned emitted) before outs ->
  parseRule Empty SimplifyCriteria rule = Err err ->
  Parse Empty SimplifyCriteria Prettify config =
  Returned ([], Some (WithDetails
                        (Wrap ("rule #" ++ decimal (length before) ++ ": ") err)
                        ("Rule: " ++ Prettify rule false))) /\
  ((exists cause, parseCriteria (cfg.Filter rule) = Err cause /\
                  err = Wrap "parsing criteria: " cause) \/
   (exists crit cause, parseCriteria (cfg.Filter rule) = Ok crit /\
                       SimplifyCriteria crit = Err cause /\
                       err = Wrap "simplifying criteria: " cause) \/
   (Empty (cfg.Actions rule) = true /\ err = New "empty action")).
Proof.
  intros Hrules Hbefore Herr. split.
  - unfold Parse. rewrite Hrules.
    now rewrite (ParseFrom_first_error before after rule outs err 0 [] Hbefore Herr).
  - unfold parseRule in Herr.
    destruct (parseCriteria (cfg.Filter rule)) as [crit|cause].
    + destruct (SimplifyCriteria crit) as [scrit|cause] eqn:Hs.
      * destruct (Empty (cfg.Actions rule)); [|discriminate Herr].
        injection Herr as <-. right. right. now split.
      * injection Herr as <-. right. left. now exists crit, cause.
    + injection Herr as <-. left. now exists cause.
Qed.

End CompilerFacts.

(** ** Panics of the expansion *)

Lemma Forall_or_Exists_leaf (l : list CriteriaAST) :
  Forall (fun c => IsLeaf c = false) l \/ Exists (fun c => IsLeaf c = true) l.
Proof.
  induction l as [|c rest [IH|IH]].
  - left. constructor.
  - destruct (IsLeaf c) eqn:Hc; [right; now left | left; now constructor].
  - right. now right.
Qed.

(** Over a root Node with at least one child, the only panic of the
    expansion is a failed assertion to a Node. *)
Lemma expand_panic_is_assertion {ActionsT : Type} (r : Rule ActionsT)
    (op : OperationType) (children : list CriteriaAST)
    (res : list (Rule ActionsT)) (p : panic) :
  Criteria r = Node op children -> children <> [] ->
  expand r res = Panicked p -> p = InterfaceConversion.
Proof.
  intros Hc Hne. destruct children as [|c0 rest]; [congruence|].
  unfold expand. rewrite Hc. cbn [index nth_error bind]. cbn zeta.
  destruct c0 as [lop leftChildren|fn grouping args isRaw].
  - unfold leftIsOrOfLeaves.
    destruct (_ && _ && _ && _ && _) eqn:Hcond; cbn [bind]; [|discriminate].
    repeat (apply andb_prop in Hcond; destruct Hcond as [Hcond ?]).
    destruct rest as [|c1 [|c2 more]]; try discriminate.
    cbn [index nth_error bind].
    destruct (OperationType_eqb (RootOperation c1) OperationNot); [|discriminate].
    destruct (IsLeaf c1) eqn:Hc1.
    + destruct leftChildren as [|child others]; [discriminate|].
      rewrite (forLeftChildren_Leaf [Node lop (child :: others); c1]
                 (child :: others) _ c1 res eq_refl Hc1) by discriminate.
      congruence.
    + rewrite (forLeftChildren_Node [Node lop leftChildren; c1]
                 leftChildren _ c1 res eq_refl Hc1).
      discriminate.
  - destruct (_ && _ && _); [|discriminate].
    destruct (Forall_or_Exists_leaf rest) as [Hnodes|Hleaf].
    + rewrite (forArgs_Nodes _ _ _ _ _ res Hnodes). discriminate.
    + destruct args as [|arg others]; [discriminate|].
      rewrite (forArgs_Leaf _ _ _ _ (arg :: others) res Hleaf) by discriminate.
      congruence.
Qed.

(** C10: [Parse] reads [Children[0]] of every simplified criteria that is
    a Node without checking that [Children] is non-empty. When the root
    Node has at least one child the access is in bounds, and no index
    panic arises in the expansion; when it has none the access is out of
    bounds and [Parse] panics, as on a rule whose simplified criteria is a
    Node without children. *)
Theorem Parse_first_child_access :
  (forall (ActionsT : Type) (r : Rule ActionsT) (op : OperationType)
          (children : list CriteriaAST) (res : list (Rule ActionsT)),
     Criteria r = Node op children -> children <> [] ->
     (exists c0, index children 0 = Returned c0) /\
     expand r res <> Panicked IndexOutOfRange) /\
  (forall (ActionsT : Type) (r : Rule ActionsT) (op : OperationType)
          (res : list (Rule ActionsT)),
     Criteria r = Node op [] -> expand r res = Panicked IndexOutOfRange) /\
  (exists r,
     parseRule Sample.Empty (Sample.simplifiesTo Sample.childless) Sample.fromA = Ok r /\
     Criteria r = Node OperationAnd [] /\
     Parse Sample.Empty (Sample.simplifiesTo Sample.childless) Sample.noDump
       (cfg.mkConfig [Sample.fromA]) = Panicked IndexOutOfRange).
Proof.
  split; [|split].
  - intros ActionsT r op children res Hc Hne. split.
    + destruct (index_0_nonempty children Hne) as [c0 [Hc0 _]]. now exists c0.
    + intro Hpanic.
      pose proof (expand_panic_is_assertion r op children res _ Hc Hne Hpanic).
      discriminate.
  - intros ActionsT r op res Hc. unfold expand. now rewrite Hc.
  - eexists. repeat split.
Qed.

(** C4: in Pattern B, when every remaining child [children[1:]] of the
    And root is a Node, the assertion to a Node and the Clone of each
    remaining child never fail, and the expansion returns; when a
    remaining child is a Leaf the assertion fails with a panic, as on a
    rule whose simplified criteria is a two-list leaf next to a plain
    leaf. *)
Theorem Parse_remaining_children_assertion :
  (forall (ActionsT : Type) (r : Rule ActionsT) (fn : FunctionType)
          (args : list string) (isRaw : bool) (remaining : list CriteriaAST),
     Criteria r = Node OperationAnd (Leaf fn OperationOr args isRaw :: remaining) ->
     1 < length args ->
     Forall (fun c => IsLeaf c = false) remaining ->
     (forall children,
        forRemaining remaining children = Returned (children ++ map Clone remaining)) /\
     (forall res, exists out, expand r res = Returned out)) /\
  (forall (ActionsT : Type) (r : Rule ActionsT) (fn : FunctionType)
          (args : list string) (isRaw : bool) (remaining : list CriteriaAST),
     Criteria r = Node OperationAnd (Leaf fn OperationOr args isRaw :: remaining) ->
     1 < length args ->
     Exists (fun c => IsLeaf c = true) remaining ->
     (forall children, forRemaining remaining children = Panicked InterfaceConversion) /\
     (forall res, expand r res = Panicked InterfaceConversion)) /\
  (exists r,
     parseRule Sample.Empty (Sample.simplifiesTo Sample.listsAndLeaf) Sample.fromA = Ok r /\
     Criteria r = Sample.listsAndLeaf /\
     Parse Sample.Empty (Sample.simplifiesTo Sample.listsAndLeaf) Sample.noDump
       (cfg.mkConfig [Sample.fromA]) = Panicked InterfaceConversion).
Proof.
  split; [|split].
  - intros ActionsT r fn args isRaw remaining Hc Hlen Hnodes. split.
    + intro children. now apply forRemaining_Nodes.
    + intro res. rewrite (expand_multi_arg_leaf r res fn args isRaw remaining Hc Hlen).
      rewrite (forArgs_Nodes _ _ _ _ _ res Hnodes). eauto.
  - intros ActionsT r fn args isRaw remaining Hc Hlen Hleaf. split.
    + intro children. now apply forRemaining_Leaf.
    + intro res. rewrite (expand_multi_arg_leaf r res fn args isRaw remaining Hc Hlen).
      apply forArgs_Leaf; [exact Hleaf|].
      destruct args; [inversion Hlen | discriminate].
  - eexists. repeat split.
Qed.

(** C1, on the code: a rule whose simplified criteria is
    [And(from a, to b)] matches neither pattern, and [Parse] emits no
    rule for it, where the claim has it pass through. *)
Theorem Parse_drops_unmatched_Node :
  parseRule Sample.Empty Sample.keep Sample.fromAndTo =
  Ok {| Criteria := Node OperationAnd
                      [Sample.leaf FunctionFrom "a"; Sample.leaf FunctionTo "b"];
        Actions := ["archive"] |} /\
  Parse Sample.Empty Sample.keep Sample.noDump (cfg.mkConfig [Sample.fromAndTo]) =
  Returned ([], None).
Proof. split; reflexivity. Qed.

(** A rule whose simplified criteria is a Leaf does pass through. *)
Example Parse_passes_Leaf :
  Parse Sample.Empty Sample.keep Sample.noDump (cfg.mkConfig [Sample.fromA]) =
  Returned ([{| Criteria := Sample.leaf FunctionFrom "a"; Actions := ["archive"] |}],
            None).
Proof. reflexivity. Qed.

(** ** The theorems at sample inputs *)

(** The end-to-end example of the specification: two rules, one per
    sender, each with the negated subject and the actions of the input. *)
Lemma Parse_or_of_leaves_and_not_witness :
  Parse Sample.Empty Sample.keep Sample.noDump
    (cfg.mkConfig [Sample.eitherSenderNotSubject]) =
  Returned
    ([{| Criteria := Node OperationAnd
                       [Sample.leaf FunctionFrom "a";
                        Node OperationNot [Sample.leaf FunctionSubject "x"]];
         Actions := ["archive"] |};
      {| Criteria := Node OperationAnd
                       [Sample.leaf FunctionFrom "b";
                        Node OperationNot [Sample.leaf FunctionSubject "x"]];
         Actions := ["archive"] |}],
     None).
Proof.
  refine (proj2 (Parse_or_of_leaves_and_not Sample.Empty Sample.keep Sample.noDump
                  Sample.eitherSenderNotSubject
                  {| Criteria :=
                       Node OperationAnd
                         [Node OperationOr
                            [Sample.leaf FunctionFrom "a"; Sample.leaf FunctionFrom "b"];
                          Node OperationNot [Sample.leaf FunctionSubject "x"]];
                     Actions := ["archive"] |}
                  [Sample.leaf FunctionFrom "a"; Sample.leaf FunctionFrom "b"]
                  (Node OperationNot [Sample.leaf FunctionSubject "x"])
                  eq_refl eq_refl _ _ eq_refl eq_refl)).
  - simpl. lia.
  - repeat constructor.
Defined.

(** A two-list leaf grouped by Or next to a Not node: one rule per list,
    each over a List leaf and the Not node. *)
Lemma Parse_multi_arg_leaf_witness :
  Parse Sample.Empty (Sample.simplifiesTo Sample.listsAndNot) Sample.noDump
    (cfg.mkConfig [Sample.fromA]) =
  Returned
    ([{| Criteria := Node OperationAnd
                       [Leaf FunctionList OperationOr ["a"] false;
                        Node OperationNot [Sample.leaf FunctionSubject "x"]];
         Actions := ["archive"] |};
      {| Criteria := Node OperationAnd
                       [Leaf FunctionList OperationOr ["b"] false;
                        Node OperationNot [Sample.leaf FunctionSubject "x"]];
         Actions := ["archive"] |}],
     None).
Proof.
  refine (proj2 (Parse_multi_arg_leaf Sample.Empty
                  (Sample.simplifiesTo Sample.listsAndNot) Sample.noDump
                  Sample.fromA
                  {| Criteria := Sample.listsAndNot; Actions := ["archive"] |}
                  FunctionList OperationOr ["a"; "b"] false
                  [Node OperationNot [Sample.leaf FunctionSubject "x"]]
                  eq_refl eq_refl eq_refl _ _)).
  - simpl. lia.
  - repeat constructor.
Defined.

(** A two-list leaf grouped by Or next to a plain leaf: the criteria is
    an And Node whose children[0] is a Leaf with two arguments and root
    operation Or, and [Parse] panics instead of emitting two rules. *)
Lemma Parse_multi_arg_leaf_next_to_leaf :
  parseRule Sample.Empty (Sample.simplifiesTo Sample.listsAndLeaf) Sample.fromA =
  Ok {| Criteria :=
          Node OperationAnd
            [Leaf FunctionList OperationOr ["a"; "b"] false;
             Sample.leaf FunctionFrom "x"];
        Actions := ["archive"] |} /\
  RootOperation (Leaf FunctionList OperationOr ["a"; "b"] false) = OperationOr /\
  Parse Sample.Empty (Sample.simplifiesTo Sample.listsAndLeaf) Sample.noDump
    (cfg.mkConfig [Sample.fromA]) = Panicked InterfaceConversion /\
  Parse Sample.Empty (Sample.simplifiesTo Sample.listsAndLeaf) Sample.noDump
    (cfg.mkConfig [Sample.fromA]) <>
  Returned
    (map (fun a =>
            {| Criteria :=
                 Node OperationAnd
                   [Leaf FunctionList OperationOr [a] false;
                    Clone (Sample.leaf FunctionFrom "x")];
               Actions := ["archive"] |})
         ["a"; "b"],
     None).
Proof. repeat split; discriminate. Qed.

(** A rule with a valid filter and no action fails with the empty-action
    error. *)
Lemma parseRule_empty_actions_witness :
  exists e,
    parseRule Sample.Empty Sample.keep Sample.noAction = Err e /\
    Parse Sample.Empty Sample.keep Sample.noDump (cfg.mkConfig [Sample.noAction]) =
    Returned ([], Some (WithDetails (Wrap "rule #0: " e)
                                    ("Rule: " ++ Sample.noDump Sample.noAction false))) /\
    e = New "empty action".
Proof.
  exact (parseRule_empty_actions Sample.Empty Sample.keep Sample.noDump
           Sample.noAction eq_refl).
Defined.

(** A rule with neither a populated field nor an action: its Actions are
    empty, and the error is the one of the criteria, not the empty-action
    error. *)
Lemma parseRule_empty_actions_after_criteria :
  Sample.Empty (cfg.Actions Sample.nothing) = true /\
  parseRule Sample.Empty Sample.keep Sample.nothing =
  Err (Wrap "parsing criteria: " (New "empty filter node")) /\
  parseRule Sample.Empty Sample.keep Sample.nothing <> Err (New "empty action").
Proof. repeat split; discriminate. Qed.

(** A valid rule followed by a rule without a populated field: the error
    names rule number 1. *)
Lemma Parse_first_failing_rule_witness :
  Parse Sample.Empty Sample.keep Sample.noDump
    (cfg.mkConfig [Sample.fromA; Sample.nothing]) =
  Returned ([], Some (WithDetails
                        (Wrap "rule #1: "
                           (Wrap "parsing criteria: " (New "empty filter node")))
                        "Rule: ")) /\
  ((exists cause,
      parseCriteria (cfg.Filter Sample.nothing) = Err cause /\
      Wrap "parsing criteria: " (New "empty filter node") =
      Wrap "parsing criteria: " cause) \/
   (exists crit cause,
      parseCriteria (cfg.Filter Sample.nothing) = Ok crit /\
      Sample.keep crit = Err cause /\
      Wrap "parsing criteria: " (New "empty filter node") =
      Wrap "simplifying criteria: " cause) \/
   (Sample.Empty (cfg.Actions Sample.nothing) = true /\
    Wrap "parsing criteria: " (New "empty filter node") = New "empty action")).
Proof.
  refine (Parse_first_failing_rule Sample.Empty Sample.keep Sample.noDump
           (cfg.mkConfig [Sample.fromA; Sample.nothing])
           [Sample.fromA] [] Sample.nothing
           [[{| Criteria := Sample.leaf FunctionFrom "a"; Actions := ["archive"] |}]]
           (Wrap "parsing criteria: " (New "empty filter node"))
           eq_refl _ eq_refl).
  repeat constructor.
  exists {| Criteria := Sample.leaf FunctionFrom "a"; Actions := ["archive"] |}.
  split; reflexivity.
Defined.

(** A rule whose expansion panics, followed by a rule without an action:
    the second rule fails the action check, and [Parse] panics on the
    first instead of returning an error. *)
Lemma Parse_panics_before_failing_rule :
  parseRule Sample.Empty (Sample.simplifiesTo Sample.listsAndLeaf) Sample.noAction =
  Err (New "empty action") /\
  Parse Sample.Empty (Sample.simplifiesTo Sample.listsAndLeaf) Sample.noDump
    (cfg.mkConfig [Sample.fromA; Sample.noAction]) = Panicked InterfaceConversion /\
  (forall rules e,
     Parse Sample.Empty (Sample.simplifiesTo Sample.listsAndLeaf) Sample.noDump
       (cfg.mkConfig [Sample.fromA; Sample.noAction]) <> Returned (rules, Some e)).
Proof. repeat split; discriminate. Qed.

(** ** What the builder guarantees *)

(** A combinator found by [parseOperation] comes with at least one
    child, and Not with exactly one. *)
Lemma parseOperation_children (f : cfg.FilterNode) (op : OperationType)
    (children : list cfg.FilterNode) :
  parseOperation f = (op, children) -> op <> OperationNone ->
  0 < length children /\ (op = OperationNot -> length children = 1).
Proof.
  unfold parseOperation. intros H Hop.
  destruct (0 <? length (cfg.And f)) eqn:Hand.
  - injection H as <- <-. apply Nat.ltb_lt in Hand. split; [exact Hand | discriminate].
  - destruct (0 <? length (cfg.Or f)) eqn:Hor.
    + injection H as <- <-. apply Nat.ltb_lt in Hor. split; [exact Hor | discriminate].
    + destruct (cfg.Not f) as [n|]; injection H as <- <-; [|congruence].
      split; [apply Nat.lt_0_1 | reflexivity].
Qed.

(** A predicate found by [parseFunction] comes with a non-empty value. *)
Lemma parseFunction_nonEmpty (f : cfg.FilterNode) (fn : FunctionType) (arg : string) :
  parseFunction f = (fn, arg) -> fn <> FunctionNone -> cfg.nonEmpty arg = true.
Proof.
  unfold parseFunction. intros H Hfn.
  repeat match type of H with
         | (if cfg.nonEmpty ?s then _ else _) = _ =>
             let E := fresh "E" in
             destruct (cfg.nonEmpty s) eqn:E; [injection H as <- <-; exact E|]
         end.
  injection H as <- <-. congruence.
Qed.

(** On a node that passes [checkSyntax] with [isEscaped] set, the single
    populated field is from, to or subject. *)
Lemma checkSyntax_escaped (f : cfg.FilterNode) (name : string) :
  checkSyntax f = None -> cfg.NonEmptyFields f = [name] -> cfg.IsEscaped f = true ->
  name = "from" \/ name = "to" \/ name = "subject".
Proof.
  intros Hsyntax Hname Hesc. apply checkSyntax_violation in Hsyntax.
  unfold syntaxViolation in Hsyntax. rewrite Hname, Hesc in Hsyntax.
  cbn [andb allowed existsb] in Hsyntax.
  destruct (name =? "from")%string eqn:E1; [apply String.eqb_eq in E1; auto|].
  destruct (name =? "to")%string eqn:E2; [apply String.eqb_eq in E2; auto|].
  destruct (name =? "subject")%string eqn:E3; [apply String.eqb_eq in E3; auto|].
  discriminate Hsyntax.
Qed.

Lemma Forall2_forallb {A B : Type} (rel : A -> B -> Prop) (p : B -> bool)
    (l : list A) (l' : list B) :
  Forall (fun x => forall y, rel x y -> p y = true) l ->
  Forall2 rel l l' -> forallb p l' = true.
Proof.
  intros Hall Hrel. induction Hrel as [|x y l l' Hxy _ IH]; [reflexivity|].
  inversion Hall as [|? ? Hx Hrest]; subst. cbn [forallb].
  now rewrite (Hx y Hxy), (IH Hrest).
Qed.

Lemma built_wellBuilt (f : cfg.FilterNode) (tree : CriteriaAST) :
  parseCriteria f = Ok tree -> wellBuilt tree = true.
Proof.
  revert tree.
  induction f as [f IHand IHor IHnot] using FilterNode_nested_ind. intros tree Hparse.
  destruct (checkSyntax f) as [err|] eqn:Hsyntax.
  { rewrite parseCriteria_unfold in Hparse. unfold parseCriteria_body in Hparse.
    rewrite Hsyntax in Hparse. discriminate Hparse. }
  destruct (checkSyntax_single f Hsyntax) as [name Hname].
  pose proof (parseCriteria_builtFrom f name Hsyntax Hname) as Hbuilt.
  pose proof (single_populated f name Hname) as Hshape.
  unfold builtFrom in Hbuilt. rewrite Hparse in Hbuilt.
  destruct (combinatorOf name f) as [[op children]|] eqn:Hcomb.
  - destruct Hshape as [Hop [Hnone _]].
    destruct (parseOperation_children f op children Hop Hnone) as [Hlen Hone].
    injection Hbuilt as Hbuilt.
    destruct (mapResult parseCriteria children) as [built|e] eqn:Hmap;
      simpl in Hbuilt; [|discriminate Hbuilt].
    injection Hbuilt as <-. apply mapResult_Ok_inv in Hmap.
    pose proof (Forall2_length Hmap) as Hsame.
    pose proof (combinatorOf_children _ f name op children Hcomb IHand IHor IHnot) as IH.
    cbn [wellBuilt]. rewrite (Forall2_forallb _ wellBuilt children built IH Hmap).
    rewrite <- Hsame. apply Nat.ltb_lt in Hlen. rewrite Hlen.
    destruct op; try congruence; cbn [OperationType_eqb negb andb]; try reflexivity.
    rewrite (Hone eq_refl). reflexivity.
  - destruct Hshape as [_ [_ [fn [arg [Hpred [Hfun Hfn]]]]]].
    rewrite Hpred in Hbuilt. injection Hbuilt as <-.
    cbn [wellBuilt OperationType_eqb].
    rewrite (parseFunction_nonEmpty f fn arg Hfun Hfn).
    destruct (cfg.IsEscaped f) eqn:Hesc.
    + destruct (checkSyntax_escaped f name Hsyntax Hname Hesc) as [-> | [-> | ->]];
        cbn in Hpred; injection Hpred as <- _; reflexivity.
    + destruct fn; try congruence; reflexivity.
Qed.

(** X1: every tree [parseCriteria] returns is well built: each Node has
    an operation other than None and at least one child, each Not node
    exactly one child; each Leaf has a function other than None, Grouping
    None and a single non-empty argument, and is raw only when its
    function is From, To or Subject. *)
Theorem parseCriteria_wellBuilt (f : cfg.FilterNode) (tree : CriteriaAST) :
  parseCriteria f = Ok tree -> wellBuilt tree = true.
Proof. apply built_wellBuilt. Qed.

Lemma find_app {A : Type} (p : A -> bool) (l l' : list A) :
  find p (l ++ l') = match find p l with
                     | Some x => Some x
                     | None => find p l'
                     end.
Proof.
  induction l as [|x rest IH]; cbn [app find]; [reflexivity|].
  destruct (p x); [reflexivity | exact IH].
Qed.

(** The children are built up to the first node, in document order, that
    breaks the syntax rules. *)
Lemma mapResult_first_violation (children : list cfg.FilterNode) :
  Forall (fun c =>
            match find syntaxViolation (subnodes c) with
            | Some n => exists e, checkSyntax n = Some e /\ parseCriteria c = Err e
            | None => exists tree, parseCriteria c = Ok tree
            end) children ->
  match find syntaxViolation (flat_map subnodes children) with
  | Some n => exists e, checkSyntax n = Some e /\ mapResult parseCriteria children = Err e
  | None => exists built, mapResult parseCriteria children = Ok built
  end.
Proof.
  induction 1 as [|c rest Hc _ IH]; cbn [flat_map mapResult find].
  - now exists [].
  - rewrite find_app. destruct (find syntaxViolation (subnodes c)) as [n|].
    + destruct Hc as [e [Hn ->]]. now exists e.
    + destruct Hc as [tree ->]. cbn [bindResult].
      destruct (find syntaxViolation (flat_map subnodes rest)) as [n|].
      * destruct IH as [e [Hn ->]]. now exists e.
      * destruct IH as [built ->]. now exists (tree :: built).
Qed.

(** X2: [parseCriteria] stops at the first node, in document order (a
    node before the nodes below it, children from left to right), that
    breaks the syntax rules, and returns the [checkSyntax] error of that
    node; when no node breaks them it returns a tree. *)
Theorem parseCriteria_first_violation (f : cfg.FilterNode) :
  match find syntaxViolation (subnodes f) with
  | Some n => exists e, checkSyntax n = Some e /\ parseCriteria f = Err e
  | None => exists tree, parseCriteria f = Ok tree
  end.
Proof.
  induction f as [f IHand IHor IHnot] using FilterNode_nested_ind.
  destruct (checkSyntax f) as [err|] eqn:Hsyntax.
  - assert (syntaxViolation f = true) as Hv.
    { destruct (syntaxViolation f) eqn:Hv; [reflexivity|].
      apply checkSyntax_violation in Hv. congruence. }
    replace (find syntaxViolation (subnodes f)) with (Some f)
      by (destruct f; cbn [subnodes find]; now rewrite Hv).
    exists err. split; [exact Hsyntax|].
    rewrite parseCriteria_unfold. unfold parseCriteria_body. now rewrite Hsyntax.
  - destruct (checkSyntax_single f Hsyntax) as [name Hname].
    pose proof (parseCriteria_builtFrom f name Hsyntax Hname) as Hbuilt.
    pose proof (single_populated f name Hname) as Hshape.
    apply checkSyntax_violation in Hsyntax.
    unfold builtFrom in Hbuilt.
    destruct (combinatorOf name f) as [[op children]|] eqn:Hcomb.
    + destruct Hshape as [_ [_ ->]]. cbn [find]. rewrite Hsyntax.
      injection Hbuilt as Hbuilt. rewrite <- Hbuilt.
      pose proof (mapResult_first_violation children
                    (combinatorOf_children _ f name op children Hcomb IHand IHor IHnot))
        as Hchildren.
      destruct (find syntaxViolation (flat_map subnodes children)) as [n|].
      * destruct Hchildren as [e [Hn ->]]. now exists e.
      * destruct Hchildren as [built ->]. now exists (Node op built).
    + destruct Hshape as [_ [-> [fn [arg [Hpred _]]]]].
      rewrite Hpred in Hbuilt. injection Hbuilt as Hbuilt. rewrite <- Hbuilt.
      cbn [find]. rewrite Hsyntax. eauto.
Qed.

(** A node with a single populated field has every other field empty. *)
Lemma single_populated_fields (f : cfg.FilterNode) (name : string) :
  cfg.NonEmptyFields f = [name] ->
  f = cfg.mkFilterNode
        (if (name =? "and")%string then cfg.And f else [])
        (if (name =? "or")%string then cfg.Or f else [])
        (if (name =? "not")%string then cfg.Not f else None)
        (if (name =? "from")%string then cfg.From f else "")
        (if (name =? "to")%string then cfg.To f else "")
        (if (name =? "cc")%string then cfg.Cc f else "")
        (if (name =? "bcc")%string then cfg.Bcc f else "")
        (if (name =? "replyTo")%string then cfg.ReplyTo f else "")
        (if (name =? "subject")%string then cfg.Subject f else "")
        (if (name =? "list")%string then cfg.List f else "")
        (if (name =? "has")%string then cfg.Has f else "")
        (if (name =? "query")%string then cfg.Query f else "")
        (cfg.IsEscaped f).
Proof.
  destruct f as [a o n fr to cc bcc rt su li ha qu esc].
  unfold cfg.NonEmptyFields. intro H.
  destruct a as [|a0 a']; simpl in H; try discriminate H;
  destruct o as [|o0 o']; simpl in H; try discriminate H;
  destruct n as [n0|]; simpl in H; try discriminate H;
  destruct fr as [|? ?]; simpl in H; try discriminate H;
  destruct to as [|? ?]; simpl in H; try discriminate H;
  destruct cc as [|? ?]; simpl in H; try discriminate H;
  destruct bcc as [|? ?]; simpl in H; try discriminate H;
  destruct rt as [|? ?]; simpl in H; try discriminate H;
  destruct su as [|? ?]; simpl in H; try discriminate H;
  destruct li as [|? ?]; simpl in H; try discriminate H;
  destruct ha as [|? ?]; simpl in H; try discriminate H;
  destruct qu as [|? ?]; simpl in H; try discriminate H;
  injection H as <-; reflexivity.
Qed.

(** ** What the rule compiler guarantees *)

Lemma Forall_concat {A : Type} (P : A -> Prop) (blocks : list (list A)) :
  Forall (Forall P) blocks -> Forall P (concat blocks).
Proof.
  induction 1 as [|b rest Hb _ IH]; cbn [concat]; [constructor|].
  apply Forall_app. now split.
Qed.

Section CompilerGuarantees.

Context {ActionsT : Type}.
Variable Empty : ActionsT -> bool.
Variable SimplifyCriteria : CriteriaAST -> result CriteriaAST.
Variable Prettify : cfg.Rule ActionsT -> bool -> string.

Lemma forLeftChildren_actions (rootChildren leftChildren : list CriteriaAST)
    (actions : ActionsT) (res out : list (Rule ActionsT)) :
  forLeftChildren rootChildren actions leftChildren res = Returned out ->
  Forall (fun o => Actions o = actions) res ->
  Forall (fun o => Actions o = actions) out.
Proof.
  revert res. induction leftChildren as [|child rest IH]; intros res Hrun Hres.
  - cbn in Hrun. now injection Hrun as <-.
  - cbn [forLeftChildren] in Hrun.
    destruct (index rootChildren 1) as [c1|p]; [|discriminate Hrun]. cbn [bind] in Hrun.
    destruct (assertNode c1) as [n|p]; [|discriminate Hrun]. cbn [bind] in Hrun.
    apply (IH _ Hrun). apply Forall_app. split; [exact Hres|]. now constructor.
Qed.

Lemma forArgs_actions (rootChildren : list CriteriaAST) (isRaw : bool)
    (actions : ActionsT) (args : list string) (res out : list (Rule ActionsT)) :
  forArgs rootChildren isRaw actions args res = Returned out ->
  Forall (fun o => Actions o = actions) res ->
  Forall (fun o => Actions o = actions) out.
Proof.
  revert res. induction args as [|arg rest IH]; intros res Hrun Hres.
  - cbn in Hrun. now injection Hrun as <-.
  - cbn [forArgs] in Hrun.
    destruct (sliceFrom rootChildren 1) as [remaining|p]; [|discriminate Hrun].
    cbn [bind] in Hrun.
    destruct (forRemaining remaining _) as [children|p]; [|discriminate Hrun].
    cbn [bind] in Hrun.
    apply (IH _ Hrun). apply Forall_app. split; [exact Hres|]. now constructor.
Qed.

(** Every rule an input rule expands to carries its actions. *)
Lemma expand_actions (r : Rule ActionsT) (emitted : list (Rule ActionsT)) :
  expand r [] = Returned emitted ->
  Forall (fun o => Actions o = Actions r) emitted.
Proof.
  unfold expand. destruct (Criteria r) as [op rootChildren|fn g args isRaw].
  - cbn zeta.
    destruct (index rootChildren 0) as [c0|p]; [|discriminate]. cbn [bind].
    destruct c0 as [lop leftChildren|fn g args isRaw].
    + destruct (leftIsOrOfLeaves _ _ _ _) as [fires|p]; [|discriminate]. cbn [bind].
      destruct fires.
      * intro H. now apply (forLeftChildren_actions _ _ _ _ _ H).
      * intros [= <-]. constructor.
    + destruct (_ && _ && _).
      * intro H. now apply (forArgs_actions _ _ _ _ _ _ H).
      * intros [= <-]. constructor.
  - intros [= <-]. now repeat constructor.
Qed.

(** X4: for every input rule whose simplified criteria is a Leaf,
    [Parse] appends exactly one output rule: the simplified criteria with
    the actions of the input rule. *)
Theorem Parse_Leaf_passes_through (rule : cfg.Rule ActionsT) (r : Rule ActionsT) :
  parseRule Empty SimplifyCriteria rule = Ok r ->
  IsLeaf (Criteria r) = true ->
  Actions r = cfg.Actions rule /\
  (forall i rest res,
     ParseFrom Empty SimplifyCriteria Prettify i (rule :: rest) res =
     ParseFrom Empty SimplifyCriteria Prettify (S i) rest (res ++ [r])) /\
  Parse Empty SimplifyCriteria Prettify (cfg.mkConfig [rule]) = Returned ([r], None).
Proof.
  intros Hr Hleaf.
  destruct (parseRule_Ok _ _ _ _ Hr) as [_ [_ [_ [Hact _]]]].
  pose proof (expand_Leaf r [] Hleaf) as Hexp. cbn [app] in Hexp.
  repeat split; [exact Hact | |].
  - intros i rest res. now apply ParseFrom_step with (r := r).
  - unfold Parse. cbn [cfg.Rules].
    now rewrite (ParseFrom_step Empty SimplifyCriteria Prettify 0 rule r [] [] _ Hr Hexp).
Qed.

(** X5: every rule [Parse] returns carries the actions of one of the
    input rules, and these actions are not empty. *)
Theorem Parse_output_actions (config : cfg.Config ActionsT)
    (out : list (Rule ActionsT)) :
  Parse Empty SimplifyCriteria Prettify config = Returned (out, None) ->
  Forall (fun o =>
            Empty (Actions o) = false /\
            exists rule, In rule (cfg.Rules config) /\ Actions o = cfg.Actions rule)
         out.
Proof.
  unfold Parse. intro H. apply ParseFrom_output in H.
  destruct H as [outs [Hall ->]]. cbn [app]. apply Forall_concat.
  induction Hall as [|rule emitted rules outs [r [Hr Hexp]] _ IH]; [constructor|].
  constructor.
  - destruct (parseRule_Ok _ _ _ _ Hr) as [_ [_ [_ [Hact Hne]]]].
    pose proof (expand_actions r emitted Hexp) as Hsame.
    eapply Forall_impl; [|exact Hsame]. cbn beta. intros o Ho. split.
    + now rewrite Ho, Hact.
    + exists rule. split; [now left | now rewrite Ho].
  - eapply Forall_impl; [|exact IH]. intros emitted'.
    apply Forall_impl. intros o [Hne [rule' [Hin Heq]]]. split; [exact Hne|].
    exists rule'. split; [now right | exact Heq].
Qed.

Lemma ParseFrom_error_inv (rules : list (cfg.Rule ActionsT)) (i : nat)
    (res out : list (Rule ActionsT)) (e : error) :
  ParseFrom Empty SimplifyCriteria Prettify i rules res = Returned (out, Some e) ->
  out = [] /\
  exists before rule after outs err,
    rules = before ++ rule :: after /\
    Forall2 (fun rule emitted =>
               exists r, parseRule Empty SimplifyCriteria rule = Ok r /\
                         expand r [] = Returned emitted) before outs /\
    parseRule Empty SimplifyCriteria rule = Err err /\
    e = WithDetails (Wrap ("rule #" ++ decimal (i + length before) ++ ": ") err)
                    ("Rule: " ++ Prettify rule false).
Proof.
  revert i res. induction rules as [|rule rest IH]; intros i res H.
  - discriminate H.
  - cbn [ParseFrom] in H.
    destruct (parseRule Empty SimplifyCriteria rule) as [r|err] eqn:Hr.
    + rewrite expand_app in H.
      destruct (expand r []) as [emitted|p] eqn:Hexp; [|discriminate H].
      cbn [bind] in H. destruct (IH _ _ H) as [-> [before [bad [after [outs [err Hrest]]]]]].
      destruct Hrest as [-> [Hall [Hbad ->]]].
      split; [reflexivity|].
      exists (rule :: before), bad, after, (emitted :: outs), err.
      repeat split; [|exact Hbad|].
      * constructor; [now exists r | exact Hall].
      * cbn [length]. now rewrite Nat.add_succ_comm.
    + injection H as <- <-. split; [reflexivity|].
      exists [], rule, rest, [], err. rewrite Nat.add_0_r.
      repeat split; [constructor | exact Hr].
Qed.

(** X6: [Parse] returns an error exactly when some rule fails in
    [parseRule] after rules that all compile and expand; the rule slice
    is then nil, and the error is that of this first failing rule,
    wrapped with its 0-based index and detailed with its dump. *)
Theorem Parse_error_iff (config : cfg.Config ActionsT)
    (out : list (Rule ActionsT)) (e : error) :
  Parse Empty SimplifyCriteria Prettify config = Returned (out, Some e) <->
  out = [] /\
  exists before rule after outs err,
    cfg.Rules config = before ++ rule :: after /\
    Forall2 (fun rule emitted =>
               exists r, parseRule Empty SimplifyCriteria rule = Ok r /\
                         expand r [] = Returned emitted) before outs /\
    parseRule Empty SimplifyCriteria rule = Err err /\
    e = WithDetails (Wrap ("rule #" ++ decimal (length before) ++ ": ") err)
                    ("Rule: " ++ Prettify rule false).
Proof.
  unfold Parse. split.
  - intro H. apply ParseFrom_error_inv in H. exact H.
  - intros [-> [before [rule [after [outs [err [-> [Hall [Herr ->]]]]]]]]].
    now rewrite (ParseFrom_first_error Empty SimplifyCriteria Prettify
                   before after rule outs err 0 [] Hall Herr).
Qed.

Lemma ParseFrom_panic_iff (rules : list (cfg.Rule ActionsT)) (i : nat)
    (res : list (Rule ActionsT)) (p : panic) :
  ParseFrom Empty SimplifyCriteria Prettify i rules res = Panicked p <->
  exists before rule after outs r,
    rules = before ++ rule :: after /\
    Forall2 (fun rule emitted =>
               exists r, parseRule Empty SimplifyCriteria rule = Ok r /\
                         expand r [] = Returned emitted) before outs /\
    parseRule Empty SimplifyCriteria rule = Ok r /\
    expand r [] = Panicked p.
Proof.
  split.
  - revert i res. induction rules as [|rule rest IH]; intros i res H.
    + discriminate H.
    + cbn [ParseFrom] in H.
      destruct (parseRule Empty SimplifyCriteria rule) as [r|err] eqn:Hr;
        [|discriminate H].
      rewrite expand_app in H.
      destruct (expand r []) as [emitted|q] eqn:Hexp; cbn [bind] in H.
      * destruct (IH _ _ H) as [before [bad [after [outs [r' Hrest]]]]].
        destruct Hrest as [-> [Hall [Hbad Hpanic]]].
        exists (rule :: before), bad, after, (emitted :: outs), r'.
        repeat split; [|exact Hbad|exact Hpanic].
        constructor; [now exists r | exact Hall].
      * injection H as ->. exists [], rule, rest, [], r.
        repeat split; [constructor | exact Hr | exact Hexp].
  - intros [before [rule [after [outs [r [-> [Hall [Hr Hpanic]]]]]]]].
    revert i res.
    induction Hall as [|ok emitted before' outs' [r' [Hr' Hexp']] _ IH]; intros i res.
    + cbn [app]. now apply ParseFrom_panic with (r := r).
    + cbn [app].
      rewrite (ParseFrom_step Empty SimplifyCriteria Prettify i ok r' _ res emitted
                 Hr' Hexp').
      apply IH.
Qed.

(** X7: [Parse] panics exactly when the expansion of some rule panics
    after rules that all compile and expand; the panic is that of this
    rule, whatever the rules after it are. *)
Theorem Parse_panic_iff (config : cfg.Config ActionsT) (p : panic) :
  Parse Empty SimplifyCriteria Prettify config = Panicked p <->
  exists before rule after outs r,
    cfg.Rules config = before ++ rule :: after /\
    Forall2 (fun rule emitted =>
               exists r, parseRule Empty SimplifyCriteria rule = Ok r /\
                         expand r [] = Returned emitted) before outs /\
    parseRule Empty SimplifyCriteria rule = Ok r /\
    expand r [] = Panicked p.
Proof. unfold Parse. apply ParseFrom_panic_iff. Qed.

(** X8: [Parse] of two batches put one after the other succeeds exactly
    when it succeeds on each, and then returns the rules of the first
    followed by the rules of the second. *)
Theorem Parse_app (first second : list (cfg.Rule ActionsT))
    (out : list (Rule ActionsT)) :
  Parse Empty SimplifyCriteria Prettify (cfg.mkConfig (first ++ second)) =
  Returned (out, None) <->
  exists out1 out2,
    Parse Empty SimplifyCriteria Prettify (cfg.mkConfig first) = Returned (out1, None) /\
    Parse Empty SimplifyCriteria Prettify (cfg.mkConfig second) = Returned (out2, None) /\
    out = out1 ++ out2.
Proof.
  unfold Parse. cbn [cfg.Rules]. rewrite ParseFrom_output. split.
  - intros [outs [Hall ->]]. cbn [app].
    apply Forall2_app_inv_l in Hall.
    destruct Hall as [outs1 [outs2 [H1 [H2 ->]]]].
    exists (concat outs1), (concat outs2). repeat split.
    + apply ParseFrom_output. now exists outs1.
    + apply ParseFrom_output. now exists outs2.
    + apply concat_app.
  - intros [out1 [out2 [H1 [H2 ->]]]].
    apply ParseFrom_output in H1. apply ParseFrom_output in H2.
    destruct H1 as [outs1 [H1 ->]]. destruct H2 as [outs2 [H2 ->]].
    exists (outs1 ++ outs2). split; [now apply Forall2_app|].
    cbn [app]. symmetry. apply concat_app.
Qed.

End CompilerGuarantees.

(** A well-built Leaf has no grouping. *)
Lemma wellBuilt_Leaf_grouping (fn : FunctionType) (grouping : OperationType)
    (args : list string) (isRaw : bool) :
  wellBuilt (Leaf fn grouping args isRaw) = true -> grouping = OperationNone.
Proof.
  cbn [wellBuilt]. intro H.
  repeat (apply andb_prop in H; destruct H as [H ?]).
  now apply OperationType_eqb_eq.
Qed.

(** The expansion of a well-built criteria returns. *)
Lemma expand_wellBuilt {ActionsT : Type} (r : Rule ActionsT)
    (res : list (Rule ActionsT)) :
  wellBuilt (Criteria r) = true -> exists out, expand r res = Returned out.
Proof.
  unfold expand. destruct (Criteria r) as [op children|fn g args isRaw]; [|eauto].
  cbn [wellBuilt]. intro H.
  repeat (apply andb_prop in H; destruct H as [H ?]).
  destruct children as [|c0 rest]; [discriminate|].
  cbn [index nth_error bind]. cbn zeta.
  match goal with Hall : forallb wellBuilt _ = true |- _ =>
    cbn [forallb] in Hall; apply andb_prop in Hall; destruct Hall as [Hc0 Hrest]
  end.
  destruct c0 as [lop leftChildren|fn g args isRaw].
  - unfold leftIsOrOfLeaves.
    destruct (_ && _ && _ && _ && _) eqn:Hcond; cbn [bind]; [|eauto].
    repeat (apply andb_prop in Hcond; destruct Hcond as [Hcond ?]).
    destruct rest as [|c1 [|c2 more]]; try discriminate.
    cbn [index nth_error bind].
    cbn [forallb] in Hrest. apply andb_prop in Hrest. destruct Hrest as [Hc1 _].
    destruct c1 as [op1 children1|fn1 g1 args1 isRaw1].
    + destruct (OperationType_eqb (RootOperation (Node op1 children1)) OperationNot);
        [|eauto].
      rewrite (forLeftChildren_Node [Node lop leftChildren; Node op1 children1]
                 leftChildren _ (Node op1 children1) res eq_refl eq_refl).
      eexists. reflexivity.
    + rewrite (wellBuilt_Leaf_grouping _ _ _ _ Hc1). cbn. eauto.
  - rewrite (wellBuilt_Leaf_grouping _ _ _ _ Hc0). cbn [RootOperation OperationType_eqb].
    rewrite andb_false_r. cbn [andb]. eauto.
Qed.

(** X9: when the simplifier keeps criteria well built, as one that
    returns its argument does, [Parse] never panics: it returns rules or
    an error, for every batch of input rules. *)
Theorem Parse_returns_when_simplifier_keeps_wellBuilt {ActionsT : Type}
    (Empty : ActionsT -> bool)
    (SimplifyCriteria : CriteriaAST -> result CriteriaAST)
    (Prettify : cfg.Rule ActionsT -> bool -> string)
    (config : cfg.Config ActionsT) :
  (forall crit scrit,
     wellBuilt crit = true -> SimplifyCriteria crit = Ok scrit ->
     wellBuilt scrit = true) ->
  exists returned, Parse Empty SimplifyCriteria Prettify config = Returned returned.
Proof.
  intro Hkeeps. unfold Parse. generalize 0 as i. generalize (@nil (Rule ActionsT)) as res.
  induction (cfg.Rules config) as [|rule rest IH]; intros res i.
  - cbn. eauto.
  - cbn [ParseFrom].
    destruct (parseRule Empty SimplifyCriteria rule) as [r|err] eqn:Hr; [|eauto].
    destruct (parseRule_Ok _ _ _ _ Hr) as [crit [Hcrit [Hs _]]].
    pose proof (Hkeeps crit (Criteria r) (built_wellBuilt _ _ Hcrit) Hs) as Hwell.
    destruct (expand_wellBuilt r res Hwell) as [out ->]. cbn [bind]. apply IH.
Qed.

(** X10: on a node that passes [checkSyntax] exactly one of
    [parseOperation] and [parseFunction] finds a field, as the comment in
    [parseCriteria] says; the final return of [parseCriteria], the error
    "empty filter node", is never reached. *)
Theorem parseCriteria_one_field_found (f : cfg.FilterNode) :
  checkSyntax f = None ->
  (fst (parseOperation f) <> OperationNone /\ fst (parseFunction f) = FunctionNone) \/
  (fst (parseOperation f) = OperationNone /\ fst (parseFunction f) <> FunctionNone).
Proof.
  intro Hsyntax.
  destruct (checkSyntax_single f Hsyntax) as [name Hname].
  pose proof (single_populated f name Hname) as Hshape.
  pose proof (single_populated_fields f name Hname) as Hfields.
  destruct (combinatorOf name f) as [[op children]|] eqn:Hcomb.
  - left. destruct Hshape as [-> [Hop _]]. split; [exact Hop|].
    unfold combinatorOf in Hcomb. rewrite Hfields.
    destruct (name =? "and")%string eqn:E1;
      [apply String.eqb_eq in E1; subst name; reflexivity|].
    destruct (name =? "or")%string eqn:E2;
      [apply String.eqb_eq in E2; subst name; reflexivity|].
    destruct (name =? "not")%string eqn:E3; [|discriminate Hcomb].
    apply String.eqb_eq in E3. subst name. reflexivity.
  - right. destruct Hshape as [-> [_ [fn [arg [_ [-> Hfn]]]]]]. now split.
Qed.

(** ** The guarantees at sample inputs *)

Lemma parseCriteria_wellBuilt_witness :
  wellBuilt
    (Node OperationAnd
       [Node OperationOr [Sample.leaf FunctionFrom "a"; Sample.leaf FunctionFrom "b"];
        Node OperationNot [Sample.leaf FunctionSubject "x"]]) = true.
Proof.
  exact (parseCriteria_wellBuilt (cfg.Filter Sample.eitherSenderNotSubject) _ eq_refl).
Defined.

Lemma Parse_Leaf_passes_through_witness :
  Parse Sample.Empty Sample.keep Sample.noDump (cfg.mkConfig [Sample.fromA]) =
  Returned ([{| Criteria := Sample.leaf FunctionFrom "a"; Actions := ["archive"] |}],
            None).
Proof.
  exact (proj2 (proj2 (Parse_Leaf_passes_through Sample.Empty Sample.keep Sample.noDump
                         Sample.fromA
                         {| Criteria := Sample.leaf FunctionFrom "a";
                            Actions := ["archive"] |}
                         eq_refl eq_refl))).
Defined.

Lemma Parse_output_actions_witness :
  Forall (fun o =>
            Sample.Empty (Actions o) = false /\
            exists rule,
              In rule [Sample.eitherSenderNotSubject; Sample.fromA] /\
              Actions o = cfg.Actions rule)
    [{| Criteria := Node OperationAnd
                      [Sample.leaf FunctionFrom "a";
                       Node OperationNot [Sample.leaf FunctionSubject "x"]];
        Actions := ["archive"] |};
     {| Criteria := Node OperationAnd
                      [Sample.leaf FunctionFrom "b";
                       Node OperationNot [Sample.leaf FunctionSubject "x"]];
        Actions := ["archive"] |};
     {| Criteria := Sample.leaf FunctionFrom "a"; Actions := ["archive"] |}].
Proof.
  exact (Parse_output_actions Sample.Empty Sample.keep Sample.noDump
           (cfg.mkConfig [Sample.eitherSenderNotSubject; Sample.fromA]) _ eq_refl).
Defined.

Lemma Parse_returns_when_simplifier_keeps_wellBuilt_witness :
  exists returned,
    Parse Sample.Empty Sample.keep Sample.noDump
      (cfg.mkConfig [Sample.eitherSenderNotSubject; Sample.fromAndTo; Sample.nothing]) =
    Returned returned.
Proof.
  apply (Parse_returns_when_simplifier_keeps_wellBuilt Sample.Empty Sample.keep
           Sample.noDump).
  intros crit scrit Hwell Hkeep. injection Hkeep as <-. exact Hwell.
Defined.

Lemma parseCriteria_one_field_found_witness :
  (fst (parseOperation (Sample.notNode (Sample.toNode "b"))) <> OperationNone /\
   fst (parseFunction (Sample.notNode (Sample.toNode "b"))) = FunctionNone) \/
  (fst (parseOperation (Sample.notNode (Sample.toNode "b"))) = OperationNone /\
   fst (parseFunction (Sample.notNode (Sample.toNode "b"))) <> FunctionNone).
Proof.
  exact (parseCriteria_one_field_found (Sample.notNode (Sample.toNode "b")) eq_refl).
Defined.
